(** * ctestwin_setup_automator: log container codec and INI merger

    A shallow embedding of the non-GUI core of
    [ctestwin_setup_automator.py]: the code tables, the fixed-width
    string helper, [Trailer.pack], [create_blank_lg8], the merge part of
    [write_ini] / [App.apply_ops_to_ini] and the decoding part of
    [App.inspect_lg8].  Dialogs and file access are left out: a function
    that writes a file returns the bytes (or the store) it would write,
    a function that reads one takes them as an argument. *)

From Stdlib Require Import ZArith Lia List.
From Stdlib.Strings Require Byte.
From stdpp Require Import base option list gmap strings pretty fin_maps.

Abbreviation byte := Byte.byte.

(** ** Exceptions

    Python exceptions that the modelled functions can raise. *)

Inductive exn : Type :=
  | ValueError          (* raised by enc_cp932_nul: text too long *)
  | StructError         (* struct.error: wrong arity, range or buffer size *)
  | UnicodeEncodeError  (* str.encode(..., errors="strict") *)
  | NoSectionError      (* configparser: set on a missing section *)
  | DuplicateSectionError (* configparser: add_section on an existing one *)
  | KeyError.           (* dict[...] on a missing key *)

Definition result (A : Type) : Type := (exn + A)%type.

Definition raise {A : Type} (e : exn) : result A := inl e.

#[global] Instance result_ret : MRet result := λ A x, inr x.
#[global] Instance result_bind : MBind result :=
  λ A B f m, match m with inl e => inl e | inr x => f x end.
#[global] Instance result_fmap : FMap result :=
  λ A B f m, match m with inl e => inl e | inr x => inr (f x) end.

(** ** Bytes and [struct] *)

Definition byte_of_Z (z : Z) : byte :=
  default Byte.x00 (Byte.of_N (Z.to_N z)).

Definition Z_of_byte (b : byte) : Z := Z.of_N (Byte.to_N b).

(** [struct.pack("<H", v)]: two bytes, low byte first; [struct.error]
    when [v] does not fit an unsigned 16-bit field. *)
Definition pack_H (v : Z) : result (list byte) :=
  if decide (0 ≤ v ≤ 65535)%Z
  then mret [byte_of_Z (v mod 256); byte_of_Z (v / 256)]
  else raise StructError.

Fixpoint pack_Hs (vals : list Z) : result (list byte) :=
  match vals with
  | [] => mret []
  | v :: rest => b ← pack_H v; bs ← pack_Hs rest; mret (b ++ bs)
  end.

(** [struct.pack("<" + "H"*n, *vals)]: the argument count must be [n]. *)
Definition struct_pack_H (n : nat) (vals : list Z) : result (list byte) :=
  if decide (length vals = n) then pack_Hs vals else raise StructError.

Fixpoint unpack_Hs (b : list byte) : list Z :=
  match b with
  | b0 :: b1 :: rest => (Z_of_byte b0 + 256 * Z_of_byte b1)%Z :: unpack_Hs rest
  | _ => []
  end.

(** [struct.unpack("<" + "H"*n, b)]: the buffer must hold exactly [2*n]
    bytes. *)
Definition struct_unpack_H (n : nat) (b : list byte) : result (list Z) :=
  if decide (length b = 2 * n) then mret (unpack_Hs b) else raise StructError.

(** The slice [b[i:j]] for the non-negative bounds the source uses. *)
Definition slice (b : list byte) (i j : Z) : list byte :=
  take (Z.to_nat (j - i)) (drop (Z.to_nat i) b).

(** ** Constants / tables *)

(** A dict literal or comprehension: entries are stored left to right,
    a later entry for the same key replaces an earlier one. *)
Definition dict_of_items `{Countable K} {V : Type} (items : list (K * V)) : gmap K V :=
  foldl (λ d kv, <[kv.1 := kv.2]> d) ∅ items.

Definition MODE_TABLE_items : list (Z * string) :=
  [ (0, "CW"); (1, "RTTY"); (2, "SSB"); (3, "FM"); (4, "AM"); (5, "ATV");
    (6, "SSTV"); (7, "PSK"); (8, "GMSK"); (9, "MFSK"); (10, "QPSK");
    (11, "FSK"); (12, "D-STAR"); (13, "C4FM"); (14, "JT65"); (15, "JT9");
    (16, "ISCAT"); (17, "FT8"); (18, "JT4"); (19, "QRA64"); (20, "MSK144");
    (21, "WSPR"); (22, "JTMS"); (23, "FT4"); (24, "FST4") ]%Z.

Definition MODE_TABLE : gmap Z string := dict_of_items MODE_TABLE_items.

Definition MODE_TABLE_INV : gmap string Z :=
  dict_of_items ((λ kv, (kv.2, kv.1)) <$> MODE_TABLE_items).

Definition BAND_TABLE_items : list (Z * string) :=
  [ (0, "1.9MHz"); (1, "3.5MHz"); (2, "7MHz"); (3, "10MHz"); (4, "14MHz");
    (5, "18MHz"); (6, "21MHz"); (7, "24MHz"); (8, "28MHz"); (9, "50MHz");
    (10, "144MHz"); (11, "430MHz"); (12, "1200MHz"); (13, "2400MHz");
    (14, "5600MHz"); (15, "10GHz"); (16, "24GHz"); (17, "47GHz");
    (18, "75GHz"); (19, "77GHz"); (20, "135GHz"); (21, "248GHz");
    (22, "136kHz") ]%Z.

Definition BAND_TABLE : gmap Z string := dict_of_items BAND_TABLE_items.

Definition BAND_TABLE_INV : gmap string Z :=
  dict_of_items ((λ kv, (kv.2, kv.1)) <$> BAND_TABLE_items).

Definition FREQNUM : nat := 23.
Definition QSO_SIZE : Z := 170.
Definition HEADER_EXTRA : nat := 14.

(** [TABLE.get(code, f"#{code}")] as used by [inspect_lg8]. *)
Definition get_label (table : gmap Z string) (code : Z) : string :=
  default ("#" +:+ pretty code) (table !! code).

Definition mode_label (mode : Z) : string := get_label MODE_TABLE mode.
Definition band_label (freq : Z) : string := get_label BAND_TABLE freq.

(** [TABLE_INV[label]] as used by [create_lg8]. *)
Definition get_code (table_inv : gmap string Z) (label : string) : result Z :=
  match table_inv !! label with
  | Some c => mret c
  | None => raise KeyError
  end.

Definition mode_code (label : string) : result Z := get_code MODE_TABLE_INV label.
Definition band_code (label : string) : result Z := get_code BAND_TABLE_INV label.

(** ** Helpers for CP932 fixed strings *)

(** The bytes literal the source writes as [b"\\x00"]: the backslash is
    escaped, so the literal holds the four bytes [\], [x], [0], [0]
    (0x5C 0x78 0x30 0x30), not a single zero byte. *)
Definition lit_bslash_x00 : list byte := [Byte.x5c; Byte.x78; Byte.x30; Byte.x30].

(** [lit * n] on bytes. *)
Definition bytes_mul (lit : list byte) (n : nat) : list byte :=
  concat (replicate n lit).

(** ** Trailer structure *)

Record Trailer : Type := mkTrailer {
  ModeCurrent : Z;
  Is001Style : Z;
  DupePolicy : Z;
  FreqCurrent : Z;
  ContestKind : Z;
  TwiceMinusOne : Z;
  PointPhone : list Z;
  PointCW : list Z;
  ClubOpName : list string;
  UserDefinedMultiPath : option string
}.

(** [Trailer()]: the dataclass defaults. *)
Definition Trailer_default : Trailer :=
  {| ModeCurrent := 0; Is001Style := 0; DupePolicy := 0; FreqCurrent := 0;
     ContestKind := 0; TwiceMinusOne := 0;
     PointPhone := replicate FREQNUM 1%Z;
     PointCW := replicate FREQNUM 1%Z;
     ClubOpName := replicate 30 "";
     UserDefinedMultiPath := None |}.

(** [(names + [""]*30)[:30]] *)
Definition pad30 (names : list string) : list string :=
  take 30 (names ++ replicate 30 "").

Section Codec.

(** [str.encode("cp932", errors="strict")]: the code page table belongs
    to the Python runtime, so the encoder is a parameter; [None] stands
    for [UnicodeEncodeError]. *)
Variable cp932 : string → option (list byte).

Definition encode_cp932 (s : string) : result (list byte) :=
  match cp932 s with
  | Some e => mret e
  | None => raise UnicodeEncodeError
  end.

Definition enc_cp932_nul (s : string) (size : nat) : result (list byte) :=
  e ← encode_cp932 s;
  let b := e ++ lit_bslash_x00 in
  if decide (size < length b) then raise ValueError
  else mret (b ++ bytes_mul lit_bslash_x00 (size - length b)).

(** The loop [for name in ...: out += enc_cp932_nul(name, 20)]. *)
Fixpoint pack_names (out : list byte) (names : list string) : result (list byte) :=
  match names with
  | [] => mret out
  | name :: rest => e ← enc_cp932_nul name 20; pack_names (out ++ e) rest
  end.

Definition pack (self : Trailer) : result (list byte) :=
  let out := [] in
  h ← struct_pack_H 6 [ModeCurrent self; Is001Style self; DupePolicy self;
                       FreqCurrent self; ContestKind self; TwiceMinusOne self];
  let out := out ++ h in
  pp ← struct_pack_H FREQNUM (PointPhone self);
  let out := out ++ pp in
  pc ← struct_pack_H FREQNUM (PointCW self);
  let out := out ++ pc in
  out ← pack_names out (pad30 (ClubOpName self));
  match UserDefinedMultiPath self with
  | Some (String c p) =>
      e ← encode_cp932 (String c p);
      mret (out ++ (e ++ lit_bslash_x00))
  | _ => mret out
  end.

(** ** .lg8: create blank with trailer *)

(** The trailer [create_blank_lg8] builds before packing it. *)
Definition blank_trailer (mode_code band_code contest_kind is001 dupe_policy
    twice_minus_one : Z) (club_ops : option (list string))
    (md_path : option string) : Trailer :=
  let t := Trailer_default in
  {| ModeCurrent := mode_code;
     Is001Style := is001;
     DupePolicy := dupe_policy;
     FreqCurrent := band_code;
     ContestKind := contest_kind;
     TwiceMinusOne := twice_minus_one;
     PointPhone := PointPhone t;
     PointCW := PointCW t;
     ClubOpName :=
       match club_ops with
       | Some (op :: ops) => pad30 (op :: ops)
       | _ => ClubOpName t
       end;
     UserDefinedMultiPath := md_path |}.

(** Returns the bytes written to [out_path]. *)
Definition create_blank_lg8 (mode_code band_code contest_kind is001 dupe_policy
    twice_minus_one : Z) (club_ops : option (list string))
    (md_path : option string) (header_legacy_2bytes : bool) : result (list byte) :=
  let t := blank_trailer mode_code band_code contest_kind is001 dupe_policy
             twice_minus_one club_ops md_path in
  let data := [] in
  c ← pack_H 0;
  let data := data ++ c in
  let data := if negb header_legacy_2bytes
              then data ++ bytes_mul lit_bslash_x00 HEADER_EXTRA
              else data in
  tr ← pack t;
  mret (data ++ tr).

(** [create_blank_lg8(out_path, mode_code, band_code, contest_kind)] with
    every other parameter at the default of the signature:
    [is001=0, dupe_policy=0, twice_minus_one=0, club_ops=None,
    md_path=None, header_legacy_2bytes=True]. *)
Definition create_blank_lg8_defaults (mode_code band_code contest_kind : Z)
    : result (list byte) :=
  create_blank_lg8 mode_code band_code contest_kind 0 0 0 None None true.

End Codec.

(** The single-byte range of cp932: code units below 0x80 encode to
    themselves.  Used as the encoder of the concrete examples, all of
    which are ASCII text; text outside that range is not covered by this
    instance and is reported as unencodable. *)
Fixpoint cp932_ascii (s : string) : option (list byte) :=
  match s with
  | EmptyString => Some []
  | String c rest =>
      if decide (Ascii.nat_of_ascii c < 128)
      then cons (Ascii.byte_of_ascii c) <$> cp932_ascii rest
      else None
  end.

(** ** Inspector *)

(** What [inspect_lg8] reports in its message box. *)
Record Inspection : Type := mkInspection {
  insp_qso : Z;
  insp_mode : Z;
  insp_mode_label : string;
  insp_freq : Z;
  insp_band_label : string;
  insp_kind : Z;
  insp_off : Z
}.

(** The offset [off] that [inspect_lg8] settles on for a buffer of [len]
    bytes whose first two bytes decode to [qso]. *)
Definition trailer_offset (len : nat) (qso : Z) : Z :=
  let off := (16 + qso * QSO_SIZE)%Z in
  if bool_decide (Z.of_nat len >= 2 + qso * QSO_SIZE + 12)%Z
     && bool_decide (Z.of_nat len < off + 12)%Z
  then (2 + qso * QSO_SIZE)%Z
  else off.

(** [inspect_lg8] on the bytes [b] read from the chosen file. *)
Definition inspect_lg8 (b : list byte) : result Inspection :=
  q ← struct_unpack_H 1 (take 2 b);
  match q with
  | [qso] =>
      let off := trailer_offset (length b) qso in
      vals ← struct_unpack_H 6 (slice b off (off + 12));
      match vals with
      | [mode; _; _; freq; kind; _] =>
          mret {| insp_qso := qso;
                  insp_mode := mode; insp_mode_label := mode_label mode;
                  insp_freq := freq; insp_band_label := band_label freq;
                  insp_kind := kind; insp_off := off |}
      | _ => raise StructError
      end
  | _ => raise StructError
  end.

(** ** INI writer *)

(** The state of a [configparser.RawConfigParser] with
    [optionxform = str]: the [DEFAULT] options and the named sections,
    option names kept as given. *)
Record RawConfigParser : Type := mkCfg {
  cfg_defaults : gmap string string;
  cfg_sections : gmap string (gmap string string)
}.

Definition default_section : string := "DEFAULT".

Definition has_section (cfg : RawConfigParser) (section : string) : bool :=
  bool_decide (is_Some (cfg_sections cfg !! section)).

Definition add_section (cfg : RawConfigParser) (section : string)
    : result RawConfigParser :=
  if decide (section = default_section) then raise ValueError
  else if has_section cfg section then raise DuplicateSectionError
  else mret {| cfg_defaults := cfg_defaults cfg;
               cfg_sections := <[section := ∅]> (cfg_sections cfg) |}.

(** [cfg.set(section, option, value)]; [optname] is the option name. *)
Definition cfg_set (cfg : RawConfigParser) (section optname value : string)
    : result RawConfigParser :=
  if decide (section = "" ∨ section = default_section)
  then mret {| cfg_defaults := <[optname := value]> (cfg_defaults cfg);
               cfg_sections := cfg_sections cfg |}
  else match cfg_sections cfg !! section with
       | Some sectdict =>
           mret {| cfg_defaults := cfg_defaults cfg;
                   cfg_sections := <[section := <[optname := value]> sectdict]>
                                     (cfg_sections cfg) |}
       | None => raise NoSectionError
       end.

(** [if not cfg.has_section(s): cfg.add_section(s)] *)
Definition ensure_section (section : string) (cfg : RawConfigParser)
    : result RawConfigParser :=
  if negb (has_section cfg section) then add_section cfg section else mret cfg.

(** The value of an [Optional[str]] that passes [if x:]. *)
Definition nonempty (x : option string) : option string :=
  match x with
  | Some (String c s) => Some (String c s)
  | _ => None
  end.

(** The value of an [Optional[int]] that passes [if x:]. *)
Definition nonzero (x : option Z) : option Z :=
  match x with
  | Some n => if decide (n = 0%Z) then None else Some n
  | None => None
  end.

(** [if x: cfg.set(section, option, x)], [x] already tested. *)
Definition set_if (x : option string) (section optname : string)
    (cfg : RawConfigParser) : result RawConfigParser :=
  match x with
  | Some v => cfg_set cfg section optname v
  | None => mret cfg
  end.

(** [for band_label, num in urcnum_map.items(): ...]; the dict is given
    by its items in iteration order. *)
Fixpoint set_urcnum (items : list (string * option string))
    (cfg : RawConfigParser) : result RawConfigParser :=
  match items with
  | [] => mret cfg
  | (band_label, num) :: rest =>
      match num with
      | None => set_urcnum rest cfg
      | Some n => cfg ← cfg_set cfg "UrCnum" band_label n; set_urcnum rest cfg
      end
  end.

Definition write_UrCnum (urcnum_map : list (string * option string))
    (cfg : RawConfigParser) : result RawConfigParser :=
  cfg ← ensure_section "UrCnum" cfg;
  set_urcnum urcnum_map cfg.

(** [f"OP{i}"] *)
Definition op_key (i : nat) : string := "OP" +:+ pretty i.

(** [club_ops[i-1] if i-1 < len(club_ops) else ""] *)
Definition op_val (club_ops : list string) (i : nat) : string :=
  if decide (i - 1 < length club_ops) then nth (i - 1) club_ops "" else "".

Fixpoint set_club_ops (indices : list nat) (club_ops : list string)
    (cfg : RawConfigParser) : result RawConfigParser :=
  match indices with
  | [] => mret cfg
  | i :: rest =>
      cfg ← cfg_set cfg "CLUB" (op_key i) (op_val club_ops i);
      set_club_ops rest club_ops cfg
  end.

(** The [CLUB] block, shared by [write_ini] and [apply_ops_to_ini];
    [seq 1 30] is [range(1, 31)]. *)
Definition write_CLUB (club_ops : list string) (cfg : RawConfigParser)
    : result RawConfigParser :=
  cfg ← ensure_section "CLUB" cfg;
  set_club_ops (seq 1 30) club_ops cfg.

Definition write_Partial (partial_path : option string) (cfg : RawConfigParser)
    : result RawConfigParser :=
  match nonempty partial_path with
  | Some p => cfg ← ensure_section "Partial" cfg; cfg_set cfg "Partial" "Filename" p
  | None => mret cfg
  end.

Definition write_CW (cw_cq : option string) (cw_wpm : option Z)
    (cfg : RawConfigParser) : result RawConfigParser :=
  if bool_decide (is_Some (nonempty cw_cq)) || bool_decide (is_Some (nonzero cw_wpm))
  then
    cfg ← ensure_section "CW" cfg;
    cfg ← set_if (nonempty cw_cq) "CW" "CQ" cfg;
    set_if (pretty <$> nonzero cw_wpm) "CW" "WPM_DEF" cfg
  else mret cfg.

Definition write_startup (startup_band_label startup_mode_label : option string)
    (cfg : RawConfigParser) : result RawConfigParser :=
  if bool_decide (is_Some (nonempty startup_band_label))
     || bool_decide (is_Some (nonempty startup_mode_label))
  then
    cfg ← ensure_section "CurrentData" cfg;
    cfg ← set_if (nonempty startup_band_label) "CurrentData" "BandLabel" cfg;
    cfg ← set_if (nonempty startup_mode_label) "CurrentData" "ModeLabel" cfg;
    cfg ← ensure_section "Startup" cfg;
    cfg ← set_if (nonempty startup_band_label) "Startup" "Band" cfg;
    set_if (nonempty startup_mode_label) "Startup" "Mode" cfg
  else mret cfg.

Definition write_CloseFname (open_log_fullpath : option string)
    (cfg : RawConfigParser) : result RawConfigParser :=
  match nonempty open_log_fullpath with
  | Some p =>
      cfg ← ensure_section "CurrentData" cfg;
      cfg_set cfg "CurrentData" "CloseFname" p
  | None => mret cfg
  end.

Definition write_Contest (user_md_path : option string) (cfg : RawConfigParser)
    : result RawConfigParser :=
  match nonempty user_md_path with
  | Some p =>
      cfg ← ensure_section "Contest" cfg;
      cfg_set cfg "Contest" "UserContestMD" p
  | None => mret cfg
  end.

(** [write_ini] between reading the file into [cfg] and writing [cfg]
    back: takes the store that was read (empty when the file does not
    exist) and returns the store that is written. *)
Definition write_ini (cfg : RawConfigParser)
    (urcnum_map : list (string * option string)) (club_ops : list string)
    (partial_path cw_cq : option string) (cw_wpm : option Z)
    (open_log_fullpath user_md_path startup_band_label startup_mode_label
       : option string) : result RawConfigParser :=
  cfg ← write_UrCnum urcnum_map cfg;
  cfg ← write_CLUB club_ops cfg;
  cfg ← write_Partial partial_path cfg;
  cfg ← write_CW cw_cq cw_wpm cfg;
  cfg ← write_startup startup_band_label startup_mode_label cfg;
  cfg ← write_CloseFname open_log_fullpath cfg;
  write_Contest user_md_path cfg.

(** [App.apply_ops_to_ini], same convention; [club_ops] is the roster
    taken from the text box. *)
Definition apply_ops_to_ini (cfg : RawConfigParser) (club_ops : list string)
    : result RawConfigParser :=
  write_CLUB club_ops cfg.

(** The value stored under [section]/[optname], if any. *)
Definition lookup2 (cfg : RawConfigParser) (section optname : string)
    : option string :=
  cfg_sections cfg !! section ≫= (λ sectdict, sectdict !! optname).


(** ** What a merge stores (specification side)

    The functions below say, per section and option name, which value a
    call stores there, if it stores one.  They are written from the
    reading of [write_ini] as a list of upserts and are compared with
    the code in the properties. *)

(** A single upsert: [x], when present, goes to [section]/[optname]. *)
Definition target_one (section optname : string) (x : option string)
    (s k : string) : option string :=
  if decide (s = section ∧ k = optname) then x else None.

(** The [UrCnum] entries; of two entries for one label the later wins. *)
Fixpoint urcnum_target (items : list (string * option string))
    (s k : string) : option string :=
  match items with
  | [] => None
  | (band_label, num) :: rest =>
      urcnum_target rest s k ∪ target_one "UrCnum" band_label num s k
  end.

(** The roster keys [OPi] for the indices [i] of the loop. *)
Fixpoint club_target (indices : list nat) (club_ops : list string)
    (s k : string) : option string :=
  match indices with
  | [] => None
  | i :: rest =>
      club_target rest club_ops s k
      ∪ target_one "CLUB" (op_key i) (Some (op_val club_ops i)) s k
  end.

Definition cw_target (cw_cq : option string) (cw_wpm : option Z)
    (s k : string) : option string :=
  target_one "CW" "WPM_DEF" (pretty <$> nonzero cw_wpm) s k
  ∪ target_one "CW" "CQ" (nonempty cw_cq) s k.

Definition startup_target (startup_band_label startup_mode_label : option string)
    (s k : string) : option string :=
  target_one "Startup" "Mode" (nonempty startup_mode_label) s k
  ∪ (target_one "Startup" "Band" (nonempty startup_band_label) s k
  ∪ (target_one "CurrentData" "ModeLabel" (nonempty startup_mode_label) s k
  ∪ target_one "CurrentData" "BandLabel" (nonempty startup_band_label) s k)).

(** All upserts of one [write_ini] call; a later block of the function
    is listed first and wins over an earlier one. *)
Definition write_ini_target
    (urcnum_map : list (string * option string)) (club_ops : list string)
    (partial_path cw_cq : option string) (cw_wpm : option Z)
    (open_log_fullpath user_md_path startup_band_label startup_mode_label
       : option string) (s k : string) : option string :=
  target_one "Contest" "UserContestMD" (nonempty user_md_path) s k
  ∪ (target_one "CurrentData" "CloseFname" (nonempty open_log_fullpath) s k
  ∪ (startup_target startup_band_label startup_mode_label s k
  ∪ (cw_target cw_cq cw_wpm s k
  ∪ (target_one "Partial" "Filename" (nonempty partial_path) s k
  ∪ (club_target (seq 1 30) club_ops s k
  ∪ urcnum_target urcnum_map s k))))).

(** [cfg'] is [cfg] with the values [w] stored on top: nothing else
    differs, no section is lost, the [DEFAULT] options are untouched. *)
Definition writes (w : string → string → option string)
    (cfg cfg' : RawConfigParser) : Prop :=
  cfg_defaults cfg' = cfg_defaults cfg
  ∧ (∀ s, is_Some (cfg_sections cfg !! s) → is_Some (cfg_sections cfg' !! s))
  ∧ (∀ s k, lookup2 cfg' s k = w s k ∪ lookup2 cfg s k).

(** Every section of [S] exists in [cfg]. *)
Definition has_sections (S : list string) (cfg : RawConfigParser) : Prop :=
  ∀ s, s ∈ S → is_Some (cfg_sections cfg !! s).

(** On a store that has the sections [S], [f] succeeds and stores [w]. *)
Definition performs (S : list string) (w : string → string → option string)
    (f : RawConfigParser → result RawConfigParser) : Prop :=
  ∀ cfg, has_sections S cfg → ∃ cfg', f cfg = inr cfg' ∧ writes w cfg cfg'.

(** The section/option pairs that [write_ini] fills from one optional
    argument each. *)
Definition single_keys : list (string * string) :=
  [ ("Partial", "Filename"); ("CW", "CQ"); ("CW", "WPM_DEF");
    ("CurrentData", "BandLabel"); ("CurrentData", "ModeLabel");
    ("Startup", "Band"); ("Startup", "Mode");
    ("CurrentData", "CloseFname"); ("Contest", "UserContestMD") ].

(** The [CLUB] section exists and holds, under [OP1] .. [OP30], the
    names of [club_ops] in order and the empty string past its end. *)
Definition roster_written (club_ops : list string) (cfg : RawConfigParser) : Prop :=
  is_Some (cfg_sections cfg !! "CLUB")
  ∧ ∀ i, 1 ≤ i ≤ 30 →
      lookup2 cfg "CLUB" (op_key i) = Some (default "" (club_ops !! (i - 1))).

(** A store with one default number and one roster entry. *)
Definition example_store : RawConfigParser :=
  {| cfg_defaults := ∅;
     cfg_sections :=
       <["UrCnum" := <["7MHz" := "25"]> ∅]>
         (<["CLUB" := <["OP1" := "JA1AAA"]> ∅]> ∅) |}.

(** ** Well-formed trailers (specification side) *)

(** The range of an unsigned 16-bit [struct] field. *)
Definition u16 (v : Z) : Prop := (0 ≤ v ≤ 65535)%Z.

(** A table [struct.pack] accepts for ["H"*FREQNUM]. *)
Definition table_ok (vals : list Z) : Prop :=
  length vals = FREQNUM ∧ Forall u16 vals.

(** A name [enc_cp932_nul] accepts at width 20: encodable, and short
    enough to leave room for the four-byte terminator. *)
Definition slot_ok (cp932 : string → option (list byte)) (name : string) : Prop :=
  ∃ e, cp932 name = Some e ∧ length e ≤ 16.

(** A trailer on which [Trailer.pack] returns. *)
Definition packable (cp932 : string → option (list byte)) (t : Trailer) : Prop :=
  Forall u16 [ModeCurrent t; Is001Style t; DupePolicy t;
              FreqCurrent t; ContestKind t; TwiceMinusOne t]
  ∧ table_ok (PointPhone t)
  ∧ table_ok (PointCW t)
  ∧ Forall (slot_ok cp932) (pad30 (ClubOpName t))
  ∧ match UserDefinedMultiPath t with
    | Some (String c p) => is_Some (cp932 (String c p))
    | _ => True
    end.

(** The bytes one roster slot takes and the bytes the optional path
    takes in the output of [Trailer.pack]. *)
Definition slot_len (cp932 : string → option (list byte)) (name : string) : nat :=
  match cp932 name with
  | Some e => 68 - 3 * length e
  | None => 0
  end.

Definition path_len (cp932 : string → option (list byte)) (path : option string) : nat :=
  match path with
  | Some (String c p) =>
      match cp932 (String c p) with
      | Some e => length e + 4
      | None => 0
      end
  | _ => 0
  end.

(** The record count in the first two bytes of a buffer, if it has them. *)
Definition read_qso (b : list byte) : option Z :=
  match b with
  | b0 :: b1 :: _ => Some (Z_of_byte b0 + 256 * Z_of_byte b1)%Z
  | _ => None
  end.

(** ** Sections a merge creates (specification side) *)

(** The sections [write_ini] makes sure exist: [UrCnum] and [CLUB] on
    every call, the others only inside the [if] of their block. *)
Definition ensured_sections
    (partial_path cw_cq : option string) (cw_wpm : option Z)
    (open_log_fullpath user_md_path startup_band_label startup_mode_label
       : option string) : list string :=
  ["UrCnum"] ++ ["CLUB"]
  ++ (match nonempty partial_path with Some _ => ["Partial"] | None => [] end)
  ++ (if bool_decide (is_Some (nonempty cw_cq))
         || bool_decide (is_Some (nonzero cw_wpm))
      then ["CW"] else [])
  ++ (if bool_decide (is_Some (nonempty startup_band_label))
         || bool_decide (is_Some (nonempty startup_mode_label))
      then ["CurrentData"; "Startup"] else [])
  ++ (match nonempty open_log_fullpath with Some _ => ["CurrentData"] | None => [] end)
  ++ (match nonempty user_md_path with Some _ => ["Contest"] | None => [] end).

(** The sections of [cfg'] are those of [cfg] and those of [C]. *)
Definition grows (C : list string) (cfg cfg' : RawConfigParser) : Prop :=
  ∀ s, is_Some (cfg_sections cfg' !! s)
       ↔ is_Some (cfg_sections cfg !! s) ∨ s ∈ C.

(** ** Contest table *)

(** [CONTEST_TABLE]: display name, file-name key and contest kind
    ([None] where the kind comes from the .md file or the default). *)
Definition CONTEST_TABLE_items : list (string * (string * option Z)) :=
  [ ("All JA", ("allja", Some 1%Z));
    ("6m and down", ("6md", Some 2%Z));
    ("全市全郡 (ACAG)", ("acag", Some 4%Z));
    ("Field Day", ("fd", Some 64%Z));
    ("All Asian DX", ("aa", Some 8%Z));
    ("CQ WW DX", ("cqww", Some 7%Z));
    ("オール東北（.md参照）", ("", None));
    ("オール宮城（.md参照）", ("", None));
    ("その他（番号指定）", ("", None)) ].

Definition CONTEST_TABLE : gmap string (string * option Z) :=
  dict_of_items CONTEST_TABLE_items.

(** What [parse_md_metadata] can return: a dict with at most the keys
    [ContestKind] (an int), [ContestKey] and [ContestName] (strings). *)
Record MdMeta : Type := mkMdMeta {
  md_ContestKind : option Z;
  md_ContestKey : option string;
  md_ContestName : option string
}.

(** ** GUI callbacks

    The widgets are read through the record below; the dialogs a
    callback opens are left out, its outcome is returned instead. *)

Record Widgets : Type := mkWidgets {
  var_year : string;
  var_year_auto : bool;
  var_contest_name : string;
  var_contest_key : string;
  var_contest_kind : string;
  var_band_label : string;
  var_mode_label : string;
  var_md_path : string;
  var_apply_startup : bool;
  urcnum_vars : string → string;   (* text of the entry of each band label *)
  var_partial : string;
  var_cw_cq : string;
  var_cw_wpm : string;
  var_open_log : string;
  var_user_md : string;
  txt_ops : string                 (* txt_ops.get("1.0", "end") *)
}.

(** [x or None] for a string [x]. *)
Definition or_None (x : string) : option string :=
  match x with
  | EmptyString => None
  | _ => Some x
  end.

Section Callbacks.

(** [str.strip], [str.splitlines], [str.isdigit], [int] on a string and
    [str.lower] belong to the Python runtime and work on Unicode text;
    they are parameters, and so are [parse_md_metadata] (it reads a
    file) and the key clean-up, an [re.sub] that deletes certain
    characters from the lower-cased name.  [int_of_str]
    returns [None] where [int] raises [ValueError] (it does so on some
    strings that pass [isdigit], such as superscript digits).
    [parse_md_metadata] returns an empty dict when the file cannot be
    read, but the [int] it applies to a [ContestKind] value is not
    guarded by a [try], so it can raise as well. *)
Variable strip : string → string.
Variable splitlines : string → list string.
Variable isdigit : string → bool.
Variable int_of_str : string → option Z.
Variable lower : string → string.
Variable parse_md_metadata : string → result MdMeta.
Variable sanitize_key : string → string.

(** [[s.strip() for s in text.splitlines() if s.strip()][:30]] *)
Definition roster_of_text (text : string) : list string :=
  take 30 (filter (λ s, s ≠ "") (strip <$> splitlines text)).

(** [App._resolve_contest]: the key, the kind and the .md path, or the
    [ValueError] it raises. *)
Definition resolve_contest (w : Widgets) : result (string * Z * option string) :=
  let sel := var_contest_name w in
  let info := default ("", None) (CONTEST_TABLE !! sel) in
  let key := info.1 in
  let kind := info.2 in
  let md_path := or_None (strip (var_md_path w)) in
  md_meta ← match md_path with
            | Some p => parse_md_metadata p
            | None => mret (mkMdMeta None None None)
            end;
  let key := match nonempty (md_ContestKey md_meta) with
             | Some k => k
             | None => key
             end in
  let kind := match md_ContestKind md_meta with
              | Some k => Some k
              | None => kind
              end in
  key_kind ←
    (if decide (sel = "その他（番号指定）")
     then
       let key := default key (or_None (strip (var_contest_key w))) in
       let kind_str := strip (var_contest_kind w) in
       if isdigit kind_str
       then match int_of_str kind_str with
            | Some k => mret (key, Some k)
            | None => raise ValueError
            end
       else raise ValueError
     else mret (key, kind));
  let key := key_kind.1 in
  let kind := default 14%Z key_kind.2 in
  let key :=
    match key with
    | EmptyString =>
        let base := default (default "custom" (or_None sel))
                      (nonempty (md_ContestName md_meta)) in
        default "custom" (or_None (sanitize_key base))
    | _ => key
    end in
  mret (key, kind, md_path).

(** [App._build_filename] *)
Definition build_filename (year key band_label : string) : string :=
  year +:+ "_" +:+ key +:+ "_" +:+ band_label +:+ ".lg8".

Section CreateLg8.
Variable cp932 : string → option (list byte).

(** [App.create_lg8]; [this_year] is [str(datetime.now().year)].
    [None]: the year is blank and nothing is created; [Some (inl e)]:
    the error dialog; [Some (inr (name, bytes))]: the file written. *)
Definition create_lg8 (w : Widgets) (this_year : string)
    : option (result (string * list byte)) :=
  let year := if var_year_auto w then this_year else strip (var_year w) in
  match year with
  | EmptyString => None
  | _ =>
      Some (
        '(key, kind, md_path) ← resolve_contest w;
        let band_label := var_band_label w in
        let mode_label := var_mode_label w in
        band_code ← band_code band_label;
        mode_code ← mode_code mode_label;
        let file_name := build_filename year key band_label in
        let club_ops := roster_of_text (txt_ops w) in
        data ← create_blank_lg8 cp932 mode_code band_code kind 0 0 0
                 (Some club_ops) md_path true;
        mret (file_name, data))
  end.

End CreateLg8.

(** [App.write_ini_clicked] on the store [cfg] read from the chosen
    file; [askyesno] is the answer to the removable-drive question when
    it is asked.  [None]: the user declined and nothing is written;
    [Some (inl e)]: the error dialog; [Some (inr cfg')]: the store
    written. *)
Definition write_ini_clicked (w : Widgets) (askyesno : bool)
    (cfg : RawConfigParser) : option (result RawConfigParser) :=
  let urcnum_map :=
    (λ label, (label, or_None (strip (urcnum_vars w label))))
      <$> BAND_TABLE_items.*2 in
  let club_ops := roster_of_text (txt_ops w) in
  let partial := or_None (strip (var_partial w)) in
  let cw_cq := or_None (strip (var_cw_cq w)) in
  match (if isdigit (strip (var_cw_wpm w))
         then match int_of_str (strip (var_cw_wpm w)) with
              | Some n => mret (Some n)
              | None => raise ValueError
              end
         else mret None) with
  | inl e => Some (inl e)
  | inr cw_wpm =>
  let open_log := or_None (strip (var_open_log w)) in
  let user_md := or_None (strip (var_user_md w)) in
  let startup_band_label :=
    if var_apply_startup w then Some (var_band_label w) else None in
  let startup_mode_label :=
    if var_apply_startup w then Some (var_mode_label w) else None in
  if match partial with
     | Some p => String.prefix "e:\\" (lower p) || String.prefix "f:\\" (lower p)
     | None => false
     end && negb askyesno
  then None
  else Some (write_ini cfg urcnum_map club_ops partial cw_cq cw_wpm open_log
               user_md startup_band_label startup_mode_label)
  end.

End Callbacks.

(** A filled-in form used in the examples: contest "All JA", 7MHz CW,
    the number 25 entered for 7MHz only, one operator, nothing else. *)
Definition example_widgets : Widgets :=
  {| var_year := "2025";
     var_year_auto := false;
     var_contest_name := "All JA";
     var_contest_key := "";
     var_contest_kind := "";
     var_band_label := "7MHz";
     var_mode_label := "CW";
     var_md_path := "";
     var_apply_startup := true;
     urcnum_vars := λ label, if String.eqb label "7MHz" then "25" else "";
     var_partial := "";
     var_cw_cq := "";
     var_cw_wpm := "";
     var_open_log := "";
     var_user_md := "";
     txt_ops := "JA1AAA" |}.

(** * Properties *)

(** ** Code tables *)

Section DictOfItems.
Context `{Countable K} {V : Type}.

Lemma foldl_insert_lookup_None (items : list (K * V)) (d : gmap K V) (k : K) :
  foldl (λ d kv, <[kv.1 := kv.2]> d) d items !! k = None
  ↔ d !! k = None ∧ k ∉ items.*1.
Proof.
  revert d; induction items as [|[k' v'] items IH]; intros d; simpl.
  - split; [intros ?; split; [done | apply not_elem_of_nil] | by intros [? _]].
  - rewrite IH, not_elem_of_cons, lookup_insert_None. simpl. intuition congruence.
Qed.

Lemma dict_of_items_None (items : list (K * V)) (k : K) :
  k ∉ items.*1 → dict_of_items items !! k = None.
Proof.
  intros Hk. unfold dict_of_items.
  apply foldl_insert_lookup_None. split; [apply lookup_empty | done].
Qed.
End DictOfItems.

Lemma get_label_outside (items : list (Z * string)) (code : Z) :
  code ∉ items.*1 → get_label (dict_of_items items) code = "#" +:+ pretty code.
Proof. intros Hk. unfold get_label. by rewrite dict_of_items_None. Qed.

Lemma mode_labels_roundtrip (label : string) :
  label ∈ MODE_TABLE_items.*2 →
  ∃ c, mode_code label = inr c ∧ mode_label c = label.
Proof.
  intros Hin. apply list_elem_of_In in Hin. simpl in Hin.
  repeat (destruct Hin as [<- | Hin];
          [eexists; split; [vm_compute; reflexivity | vm_compute; reflexivity] |]).
  destruct Hin.
Qed.

Lemma band_labels_roundtrip (label : string) :
  label ∈ BAND_TABLE_items.*2 →
  ∃ c, band_code label = inr c ∧ band_label c = label.
Proof.
  intros Hin. apply list_elem_of_In in Hin. simpl in Hin.
  repeat (destruct Hin as [<- | Hin];
          [eexists; split; [vm_compute; reflexivity | vm_compute; reflexivity] |]).
  destruct Hin.
Qed.

(** C8: every label of the mode table and of the band table is mapped by
    the inverse table to a code whose label is that label again; a code
    that is not a key of the table is labelled ["#<code>"], without
    failure ([mode_label] and [band_label] are total functions). *)
Theorem C8_label_code_roundtrip :
  (∀ label, label ∈ MODE_TABLE_items.*2 →
     ∃ c, mode_code label = inr c ∧ mode_label c = label)
  ∧ (∀ label, label ∈ BAND_TABLE_items.*2 →
     ∃ c, band_code label = inr c ∧ band_label c = label)
  ∧ (∀ code, code ∉ MODE_TABLE_items.*1 → mode_label code = "#" +:+ pretty code)
  ∧ (∀ code, code ∉ BAND_TABLE_items.*1 → band_label code = "#" +:+ pretty code).
Proof.
  split; [exact mode_labels_roundtrip |].
  split; [exact band_labels_roundtrip |].
  split; intros code Hc; by apply get_label_outside.
Qed.

Lemma C8_label_code_roundtrip_witness :
  (∃ c, mode_code "FM" = inr c ∧ mode_label c = "FM")
  ∧ (∃ c, band_code "7MHz" = inr c ∧ band_label c = "7MHz")
  ∧ mode_label 25 = "#25"
  ∧ band_label (-1) = "#-1".
Proof.
  destruct C8_label_code_roundtrip as (Hm & Hb & Hmo & Hbo).
  split; [apply Hm; apply list_elem_of_In; simpl; tauto |].
  split; [apply Hb; apply list_elem_of_In; simpl; tauto |].
  split.
  - apply (Hmo 25%Z). intros Hin. apply list_elem_of_In in Hin. simpl in Hin.
    intuition discriminate.
  - apply (Hbo (-1)%Z). intros Hin. apply list_elem_of_In in Hin. simpl in Hin.
    intuition discriminate.
Defined.

(** ** The result monad *)

Lemma bind_inr {A B : Type} (m : result A) (f : A → result B) (y : B) :
  m ≫= f = inr y ↔ ∃ x, m = inr x ∧ f x = inr y.
Proof.
  destruct m as [e|x]; simpl.
  - split; [discriminate | intros (x & Hx & _); discriminate].
  - split; [eauto | intros (x' & [= <-] & Hf); exact Hf].
Qed.

Tactic Notation "inv_bind" hyp(H) "as" ident(x) ident(Hx) :=
  apply bind_inr in H; destruct H as (x & Hx & H).

(** ** [struct] *)

Lemma pack_H_ok (v : Z) :
  (0 ≤ v ≤ 65535)%Z →
  pack_H v = inr [byte_of_Z (v mod 256); byte_of_Z (v / 256)].
Proof. intros Hv. unfold pack_H. by rewrite decide_True. Qed.

Lemma pack_H_length (v : Z) (bs : list byte) :
  pack_H v = inr bs → length bs = 2.
Proof. unfold pack_H. case_decide; [intros [= <-]; reflexivity | discriminate]. Qed.

Lemma pack_Hs_length (vals : list Z) :
  ∀ bs, pack_Hs vals = inr bs → length bs = 2 * length vals.
Proof.
  induction vals as [|v vals IH]; simpl; intros bs Hbs.
  - by injection Hbs as <-.
  - inv_bind Hbs as b Hb. inv_bind Hbs as bs' Hbs'. injection Hbs as <-.
    rewrite length_app, (pack_H_length _ _ Hb), (IH _ Hbs'). lia.
Qed.

Lemma struct_pack_H_length (n : nat) (vals : list Z) (bs : list byte) :
  struct_pack_H n vals = inr bs → length bs = 2 * n.
Proof.
  unfold struct_pack_H. case_decide as Hn; [|discriminate].
  intros Hbs. rewrite <- Hn. by apply pack_Hs_length.
Qed.

Lemma Z_of_byte_of_Z (z : Z) : (0 ≤ z < 256)%Z → Z_of_byte (byte_of_Z z) = z.
Proof.
  intros Hz. unfold Z_of_byte, byte_of_Z.
  destruct (Byte.of_N (Z.to_N z)) as [b|] eqn:Hb; simpl.
  - apply Byte.to_of_N in Hb. rewrite Hb. lia.
  - apply Byte.of_N_None_iff in Hb. lia.
Qed.

Lemma Z_of_byte_range (b : byte) : (0 ≤ Z_of_byte b ≤ 255)%Z.
Proof. unfold Z_of_byte. pose proof (Byte.to_N_bounded b). lia. Qed.

(** ** Fixed strings *)

Lemma bytes_mul_length (lit : list byte) (n : nat) :
  length (bytes_mul lit n) = n * length lit.
Proof.
  unfold bytes_mul. induction n as [|n IH]; simpl; [done|].
  rewrite length_app, IH. lia.
Qed.

Section CodecFacts.
Variable cp932 : string → option (list byte).

Lemma enc_cp932_nul_eq (s : string) (size : nat) (e : list byte) :
  cp932 s = Some e →
  enc_cp932_nul cp932 s size =
    if decide (size < length e + 4) then inl ValueError
    else inr (e ++ lit_bslash_x00
                ++ bytes_mul lit_bslash_x00 (size - (length e + 4))).
Proof.
  intros He. unfold enc_cp932_nul, encode_cp932. rewrite He. simpl.
  rewrite length_app. simpl.
  case_decide; [done|]. by rewrite <- (assoc_L (++)).
Qed.

Lemma pack_names_prefix (names : list string) :
  ∀ out r, pack_names cp932 out names = inr r → ∃ tail, r = out ++ tail.
Proof.
  induction names as [|name names IH]; simpl; intros out r Hr.
  - injection Hr as <-. exists []. by rewrite app_nil_r.
  - inv_bind Hr as e He. destruct (IH _ _ Hr) as (tail & ->).
    exists (e ++ tail). by rewrite <- (assoc_L (++)).
Qed.

Lemma pack_names_empty (n : nat) :
  cp932 "" = Some [] →
  ∀ out, pack_names cp932 out (replicate n "")
         = inr (out ++ bytes_mul (bytes_mul lit_bslash_x00 17) n).
Proof.
  intros He. induction n as [|n IH]; intros out; simpl.
  - by rewrite app_nil_r.
  - rewrite (enc_cp932_nul_eq _ _ _ He). simpl.
    rewrite IH. by rewrite <- (assoc_L (++)).
Qed.

(** The shape of a packed trailer: 12 bytes of scalars, two tables of
    [2 * FREQNUM] bytes, then the roster and the optional path. *)
Lemma pack_inv (t : Trailer) (tr : list byte) :
  pack cp932 t = inr tr →
  ∃ h pp pc rest,
    tr = h ++ pp ++ pc ++ rest
    ∧ struct_pack_H 6 [ModeCurrent t; Is001Style t; DupePolicy t;
                       FreqCurrent t; ContestKind t; TwiceMinusOne t] = inr h
    ∧ struct_pack_H FREQNUM (PointPhone t) = inr pp
    ∧ struct_pack_H FREQNUM (PointCW t) = inr pc.
Proof.
  unfold pack. intros Htr.
  inv_bind Htr as h Hh. inv_bind Htr as pp Hpp. inv_bind Htr as pc Hpc.
  inv_bind Htr as out Hout.
  destruct (pack_names_prefix _ _ _ Hout) as (tail & ->).
  exists h, pp, pc.
  destruct (UserDefinedMultiPath t) as [[|c p]|].
  - injection Htr as <-. exists tail.
    by rewrite <- !(assoc_L (++)).
  - inv_bind Htr as e He. injection Htr as <-. exists (tail ++ e ++ lit_bslash_x00).
    by rewrite <- !(assoc_L (++)).
  - injection Htr as <-. exists tail.
    by rewrite <- !(assoc_L (++)).
Qed.


End CodecFacts.

(** ** Roster *)

Lemma pad30_length (names : list string) : length (pad30 names) = 30.
Proof.
  unfold pad30. rewrite length_take, length_app, length_replicate. lia.
Qed.

Lemma pad30_lookup (names : list string) (i : nat) :
  i < 30 → pad30 names !! i = Some (default "" (names !! i)).
Proof.
  intros Hi. unfold pad30. rewrite lookup_take_lt by done.
  destruct (decide (i < length names)) as [Hlt|Hge].
  - rewrite lookup_app_l by done.
    destruct (lookup_lt_is_Some_2 names i Hlt) as [x ->]. done.
  - rewrite lookup_app_r by lia.
    rewrite lookup_replicate_2 by lia.
    by rewrite (lookup_ge_None_2 names i) by lia.
Qed.

Lemma pad30_idemp (names : list string) : pad30 (pad30 names) = pad30 names.
Proof.
  unfold pad30 at 1. rewrite take_app_le by (rewrite pad30_length; lia).
  apply take_ge. rewrite pad30_length. lia.
Qed.

(** ** Fixed-width roster slots *)

(** C6: what [enc_cp932_nul] does at width 20.  The terminator it appends
    is the four-byte literal, so a name that encodes to 17 bytes or more
    is rejected with [ValueError] (19 content bytes do not fit), and a
    name of at most 16 encoded bytes yields the text, one literal, and
    [16 - len] further literals: [68 - 3 * len] bytes, which is 20 only
    for a 16-byte name. *)
Theorem C6_enc_cp932_nul_width20
    (cp932 : string → option (list byte)) (s : string) (e : list byte) :
  cp932 s = Some e →
  (17 ≤ length e → enc_cp932_nul cp932 s 20 = inl ValueError)
  ∧ (length e ≤ 16 →
       ∃ out, enc_cp932_nul cp932 s 20 = inr out
              ∧ out = e ++ lit_bslash_x00
                        ++ bytes_mul lit_bslash_x00 (16 - length e)
              ∧ length out = 68 - 3 * length e).
Proof.
  intros He. rewrite (enc_cp932_nul_eq _ _ _ _ He). split; intros Hlen.
  - by rewrite decide_True by lia.
  - rewrite decide_False by lia. eexists. split; [reflexivity|].
    replace (20 - (length e + 4)) with (16 - length e) by lia.
    split; [reflexivity|].
    rewrite !length_app, bytes_mul_length. simpl. lia.
Qed.

Lemma C6_enc_cp932_nul_width20_witness :
  enc_cp932_nul cp932_ascii "ABCDEFGHIJKLMNOPQRS" 20 = inl ValueError
  ∧ ∃ out, enc_cp932_nul cp932_ascii "JA1AAA" 20 = inr out ∧ length out = 50.
Proof.
  split.
  - apply (C6_enc_cp932_nul_width20 cp932_ascii "ABCDEFGHIJKLMNOPQRS"
             (default [] (cp932_ascii "ABCDEFGHIJKLMNOPQRS")));
      [reflexivity | simpl; lia].
  - destruct (C6_enc_cp932_nul_width20 cp932_ascii "JA1AAA"
                (default [] (cp932_ascii "JA1AAA")) eq_refl) as (_ & Hok).
    destruct Hok as (out & Hout & _ & Hlen); [simpl; lia|].
    exists out. split; [exact Hout | exact Hlen].
Defined.

(** ** Trailer length *)

Lemma pack_default_scalars :
  struct_pack_H 6 [ModeCurrent Trailer_default; Is001Style Trailer_default;
                   DupePolicy Trailer_default; FreqCurrent Trailer_default;
                   ContestKind Trailer_default; TwiceMinusOne Trailer_default]
  = inr (replicate 12 Byte.x00).
Proof. vm_compute. reflexivity. Qed.

Lemma pack_default_table :
  struct_pack_H FREQNUM (replicate FREQNUM 1%Z)
  = inr (bytes_mul [Byte.x01; Byte.x00] FREQNUM).
Proof. vm_compute. reflexivity. Qed.

(** C5: the length of the packed default trailer.  With every roster
    slot empty, each slot is 17 copies of the four-byte literal, so the
    trailer has [12 + 2*23*2 + 30*68 = 2144] bytes instead of
    [12 + 2*23*2 + 30*20 = 704]. *)
Theorem C5_default_trailer_length (cp932 : string → option (list byte)) :
  cp932 "" = Some [] →
  length <$> pack cp932 Trailer_default = inr 2144.
Proof.
  intros He. unfold pack.
  rewrite pack_default_scalars.
  change (PointPhone Trailer_default) with (replicate FREQNUM 1%Z).
  change (PointCW Trailer_default) with (replicate FREQNUM 1%Z).
  change (pad30 (ClubOpName Trailer_default)) with (replicate 30 "").
  change (UserDefinedMultiPath Trailer_default) with (@None string).
  rewrite pack_default_table.
  cbn [mbind result_bind].
  rewrite (pack_names_empty _ _ He).
  cbn [mbind result_bind mret result_ret fmap result_fmap].
  rewrite !length_app, !bytes_mul_length, length_replicate.
  reflexivity.
Qed.

Lemma C5_default_trailer_length_witness :
  length <$> pack cp932_ascii Trailer_default = inr 2144.
Proof. apply (C5_default_trailer_length cp932_ascii). reflexivity. Defined.

(** ** Blank containers *)

Lemma pack_H_0 : pack_H 0 = inr [Byte.x00; Byte.x00].
Proof. reflexivity. Qed.

Lemma create_blank_lg8_inv (cp932 : string → option (list byte))
    (mode_code band_code contest_kind is001 dupe_policy twice_minus_one : Z)
    (club_ops : option (list string)) (md_path : option string)
    (header_legacy_2bytes : bool) (out : list byte) :
  create_blank_lg8 cp932 mode_code band_code contest_kind is001 dupe_policy
    twice_minus_one club_ops md_path header_legacy_2bytes = inr out
  ↔ ∃ tr,
      pack cp932 (blank_trailer mode_code band_code contest_kind is001
                    dupe_policy twice_minus_one club_ops md_path) = inr tr
      ∧ out = [Byte.x00; Byte.x00]
                ++ (if header_legacy_2bytes then []
                    else bytes_mul lit_bslash_x00 HEADER_EXTRA)
                ++ tr.
Proof.
  unfold create_blank_lg8. rewrite pack_H_0.
  cbn [mbind result_bind mret result_ret].
  rewrite bind_inr. rewrite app_nil_l.
  destruct header_legacy_2bytes; cbn [negb]; rewrite <- ?(assoc_L (++));
    split; intros (tr & Htr & Hout); exists tr; (split; [done|]).
  - by injection Hout as <-.
  - by rewrite Hout.
  - by injection Hout as <-.
  - by rewrite Hout.
Qed.

(** C3 (as the code has it): the header-variant parameter
    [header_legacy_2bytes] defaults to [True], the legacy variant.
    Called without the flag, and whenever the flag is set to legacy,
    [create_blank_lg8] writes the 2-byte little-endian record count 0
    immediately followed by the packed trailer, and it succeeds exactly
    when the trailer packs. *)
Theorem C3_default_header_is_legacy (cp932 : string → option (list byte))
    (mode_code band_code contest_kind : Z) (out : list byte) :
  (create_blank_lg8_defaults cp932 mode_code band_code contest_kind = inr out
   ↔ ∃ tr, pack cp932 (blank_trailer mode_code band_code contest_kind
                         0 0 0 None None) = inr tr
           ∧ out = [Byte.x00; Byte.x00] ++ tr)
  ∧ (∀ is001 dupe_policy twice_minus_one club_ops md_path,
       create_blank_lg8 cp932 mode_code band_code contest_kind is001 dupe_policy
         twice_minus_one club_ops md_path true = inr out
       ↔ ∃ tr, pack cp932 (blank_trailer mode_code band_code contest_kind is001
                             dupe_policy twice_minus_one club_ops md_path) = inr tr
               ∧ out = [Byte.x00; Byte.x00] ++ tr).
Proof.
  split; [unfold create_blank_lg8_defaults|intros]; apply create_blank_lg8_inv.
Qed.

Lemma C3_default_header_is_legacy_witness :
  ∃ out tr, create_blank_lg8_defaults cp932_ascii 3 2 1 = inr out
            ∧ pack cp932_ascii (blank_trailer 3 2 1 0 0 0 None None) = inr tr
            ∧ out = [Byte.x00; Byte.x00] ++ tr.
Proof.
  destruct (create_blank_lg8_defaults cp932_ascii 3 2 1) as [e|out] eqn:Hout;
    [vm_compute in Hout; discriminate|].
  destruct (C3_default_header_is_legacy cp932_ascii 3 2 1 out) as [[Hdef _] _].
  destruct (Hdef Hout) as (tr & Htr & Heq).
  exists out, tr. split; [reflexivity | split; [exact Htr | exact Heq]].
Defined.

(** C3, the claim as stated, fails: called without the flag for mode 3,
    band 2, contest kind 1, the output is not the record count, 14 zero
    bytes and the packed trailer. *)
Lemma C3_default_not_extended :
  ¬ ∃ tr, pack cp932_ascii (blank_trailer 3 2 1 0 0 0 None None) = inr tr
          ∧ create_blank_lg8_defaults cp932_ascii 3 2 1
            = inr ([Byte.x00; Byte.x00] ++ replicate 14 Byte.x00 ++ tr).
Proof.
  intros (tr & Htr & Hout).
  unfold create_blank_lg8_defaults in Hout.
  rewrite create_blank_lg8_inv in Hout. destruct Hout as (tr' & Htr' & Heq).
  rewrite Htr in Htr'. injection Htr' as <-.
  apply (f_equal length) in Heq.
  rewrite !length_app, length_replicate in Heq.
  cbn [length] in Heq. lia.
Qed.

(** ** Inspector *)


Lemma trailer_offset_spec (len : nat) (qso : Z) :
  trailer_offset len qso =
    if decide (2 + qso * 170 + 12 ≤ Z.of_nat len ∧ Z.of_nat len < 16 + qso * 170 + 12)%Z
    then (2 + qso * 170)%Z else (16 + qso * 170)%Z.
Proof.
  unfold trailer_offset, QSO_SIZE.
  case_decide as Hc.
  - rewrite !bool_decide_eq_true_2 by lia. reflexivity.
  - destruct (bool_decide (Z.of_nat len >= 2 + qso * 170 + 12)%Z) eqn:H1;
      [|reflexivity].
    apply bool_decide_eq_true_1 in H1.
    rewrite bool_decide_eq_false_2 by lia. reflexivity.
Qed.

Lemma inspect_lg8_short (b : list byte) :
  length b < 2 → inspect_lg8 b = inl StructError.
Proof.
  intros Hb. destruct b as [|b0 [|b1 rest]]; [reflexivity | reflexivity |].
  simpl in Hb. lia.
Qed.

Lemma qso_readable (b : list byte) :
  2 ≤ length b →
  ∃ qso, struct_unpack_H 1 (take 2 b) = inr [qso] ∧ (0 ≤ qso ≤ 65535)%Z.
Proof.
  intros Hb. destruct b as [|b0 [|b1 rest]]; simpl in Hb; try lia.
  exists (Z_of_byte b0 + 256 * Z_of_byte b1)%Z. split; [reflexivity|].
  pose proof (Z_of_byte_range b0). pose proof (Z_of_byte_range b1). lia.
Qed.

(** ** Inspecting a blank container *)

Lemma struct_pack_H_6 (a b c d e f : Z) :
  (0 ≤ a ≤ 65535)%Z → (0 ≤ b ≤ 65535)%Z → (0 ≤ c ≤ 65535)%Z →
  (0 ≤ d ≤ 65535)%Z → (0 ≤ e ≤ 65535)%Z → (0 ≤ f ≤ 65535)%Z →
  struct_pack_H 6 [a; b; c; d; e; f]
  = inr [byte_of_Z (a mod 256); byte_of_Z (a / 256);
         byte_of_Z (b mod 256); byte_of_Z (b / 256);
         byte_of_Z (c mod 256); byte_of_Z (c / 256);
         byte_of_Z (d mod 256); byte_of_Z (d / 256);
         byte_of_Z (e mod 256); byte_of_Z (e / 256);
         byte_of_Z (f mod 256); byte_of_Z (f / 256)].
Proof.
  intros Ha Hb Hc Hd He Hf. unfold struct_pack_H.
  rewrite decide_True by reflexivity. cbn [pack_Hs].
  rewrite !pack_H_ok by done. reflexivity.
Qed.

Lemma pack_blank_defaults (cp932 : string → option (list byte))
    (mode_code band_code contest_kind : Z) :
  cp932 "" = Some [] →
  (0 ≤ mode_code ≤ 65535)%Z → (0 ≤ band_code ≤ 65535)%Z →
  (0 ≤ contest_kind ≤ 65535)%Z →
  pack cp932 (blank_trailer mode_code band_code contest_kind 0 0 0 None None)
  = inr ([byte_of_Z (mode_code mod 256); byte_of_Z (mode_code / 256);
          byte_of_Z (0 mod 256); byte_of_Z (0 / 256);
          byte_of_Z (0 mod 256); byte_of_Z (0 / 256);
          byte_of_Z (band_code mod 256); byte_of_Z (band_code / 256);
          byte_of_Z (contest_kind mod 256); byte_of_Z (contest_kind / 256);
          byte_of_Z (0 mod 256); byte_of_Z (0 / 256)]
         ++ bytes_mul [Byte.x01; Byte.x00] FREQNUM
         ++ bytes_mul [Byte.x01; Byte.x00] FREQNUM
         ++ bytes_mul (bytes_mul lit_bslash_x00 17) 30).
Proof.
  intros He Hm Hb Hk. unfold pack, blank_trailer.
  cbn [ModeCurrent Is001Style DupePolicy FreqCurrent ContestKind TwiceMinusOne
       PointPhone PointCW ClubOpName UserDefinedMultiPath].
  rewrite struct_pack_H_6 by (done || lia).
  change (PointPhone Trailer_default) with (replicate FREQNUM 1%Z).
  change (PointCW Trailer_default) with (replicate FREQNUM 1%Z).
  change (pad30 (ClubOpName Trailer_default)) with (replicate 30 "").
  rewrite pack_default_table.
  cbn [mbind result_bind].
  rewrite (pack_names_empty _ _ He).
  cbn [mbind result_bind mret result_ret].
  rewrite app_nil_l, <- !(assoc_L (++)). reflexivity.
Qed.

(** C2: what inspecting a freshly created blank container returns.  The
    default variant has the 2-byte header, the buffer is far longer than
    28 bytes, so [inspect_lg8] decodes at offset 16, which lies inside
    the phone scoring table: whatever mode, band and contest kind were
    passed, it reports record count 0, mode 1, band 1 and contest kind 1
    (the table's default point value), not the codes that were written. *)
Theorem C2_inspect_blank_defaults (cp932 : string → option (list byte))
    (mode_code band_code contest_kind : Z) :
  cp932 "" = Some [] →
  (0 ≤ mode_code ≤ 65535)%Z → (0 ≤ band_code ≤ 65535)%Z →
  (0 ≤ contest_kind ≤ 65535)%Z →
  create_blank_lg8_defaults cp932 mode_code band_code contest_kind ≫= inspect_lg8
  = inr {| insp_qso := 0;
           insp_mode := 1; insp_mode_label := "RTTY";
           insp_freq := 1; insp_band_label := "3.5MHz";
           insp_kind := 1; insp_off := 16 |}.
Proof.
  intros He Hm Hb Hk. unfold create_blank_lg8_defaults.
  pose proof (pack_blank_defaults cp932 _ _ _ He Hm Hb Hk) as Hpack.
  revert Hpack.
  generalize (byte_of_Z (mode_code mod 256)) (byte_of_Z (mode_code / 256))
             (byte_of_Z (band_code mod 256)) (byte_of_Z (band_code / 256))
             (byte_of_Z (contest_kind mod 256)) (byte_of_Z (contest_kind / 256)).
  intros m0 m1 f0 f1 k0 k1 Hpack.
  match type of Hpack with
  | _ = inr ?tr =>
      assert (Hc : create_blank_lg8 cp932 mode_code band_code contest_kind
                     0 0 0 None None true
                   = inr ([Byte.x00; Byte.x00] ++ [] ++ tr))
        by (apply create_blank_lg8_inv; exists tr; split; [exact Hpack | reflexivity])
  end.
  rewrite Hc. cbn [mbind result_bind].
  vm_compute. reflexivity.
Qed.

Lemma C2_inspect_blank_defaults_witness :
  create_blank_lg8_defaults cp932_ascii 3 2 1 ≫= inspect_lg8
  = inr {| insp_qso := 0;
           insp_mode := 1; insp_mode_label := "RTTY";
           insp_freq := 1; insp_band_label := "3.5MHz";
           insp_kind := 1; insp_off := 16 |}.
Proof.
  apply (C2_inspect_blank_defaults cp932_ascii 3 2 1); [reflexivity | lia | lia | lia].
Defined.



(** ** Config store: primitives *)

Lemma option_union_assoc {A : Type} (a b c : option A) :
  a ∪ (b ∪ c) = (a ∪ b) ∪ c.
Proof. by destruct a, b, c. Qed.

Lemma option_union_None_l {A : Type} (a : option A) : None ∪ a = a.
Proof. by destruct a. Qed.

Lemma option_union_None_r {A : Type} (a : option A) : a ∪ None = a.
Proof. by destruct a. Qed.

Lemma target_one_None (section optname s k : string) :
  target_one section optname None s k = None.
Proof. unfold target_one. by case_decide. Qed.

Lemma target_one_eq (section optname : string) (x : option string) :
  target_one section optname x section optname = x.
Proof. unfold target_one. by rewrite decide_True. Qed.

Lemma target_one_ne_section (section optname : string) (x : option string)
    (s k : string) :
  s ≠ section → target_one section optname x s k = None.
Proof. intros Hs. unfold target_one. rewrite decide_False; [done | tauto]. Qed.

Lemma target_one_ne_option (section optname : string) (x : option string)
    (s k : string) :
  k ≠ optname → target_one section optname x s k = None.
Proof. intros Hk. unfold target_one. rewrite decide_False; [done | tauto]. Qed.

Lemma writes_refl (cfg : RawConfigParser) : writes (λ _ _, None) cfg cfg.
Proof.
  split; [done|]. split; [done|]. intros s k. by rewrite option_union_None_l.
Qed.

Lemma writes_trans (w1 w2 : string → string → option string)
    (cfg1 cfg2 cfg3 : RawConfigParser) :
  writes w1 cfg1 cfg2 → writes w2 cfg2 cfg3 →
  writes (λ s k, w2 s k ∪ w1 s k) cfg1 cfg3.
Proof.
  intros (Hd1 & Hs1 & Hl1) (Hd2 & Hs2 & Hl2). split; [congruence|].
  split; [auto|]. intros s k. by rewrite Hl2, Hl1, option_union_assoc.
Qed.

Lemma writes_ext (w w' : string → string → option string)
    (cfg cfg' : RawConfigParser) :
  (∀ s k, w s k = w' s k) → writes w cfg cfg' → writes w' cfg cfg'.
Proof.
  intros Hw (Hd & Hs & Hl). split; [done|]. split; [done|].
  intros s k. by rewrite <- Hw.
Qed.

Lemma ensure_section_spec (section : string) (cfg : RawConfigParser) :
  section ≠ default_section →
  ∃ cfg', ensure_section section cfg = inr cfg'
          ∧ writes (λ _ _, None) cfg cfg'
          ∧ is_Some (cfg_sections cfg' !! section).
Proof.
  intros Hsec. unfold ensure_section, has_section.
  destruct (decide (is_Some (cfg_sections cfg !! section))) as [Hhas|Hnot].
  - rewrite bool_decide_eq_true_2 by done. exists cfg.
    split; [done|]. split; [apply writes_refl | done].
  - rewrite bool_decide_eq_false_2 by done. unfold add_section, has_section.
    rewrite decide_False by done. rewrite bool_decide_eq_false_2 by done.
    eexists. split; [reflexivity|].
    apply eq_None_not_Some in Hnot.
    split; [|simpl; by rewrite lookup_insert_eq].
    split; [done|]. split.
    + intros s Hs. simpl. destruct (decide (section = s)) as [->|Hne].
      * by rewrite lookup_insert_eq.
      * by rewrite lookup_insert_ne.
    + intros s k. rewrite option_union_None_l. unfold lookup2. simpl.
      destruct (decide (section = s)) as [<-|Hne].
      * by rewrite lookup_insert_eq, Hnot.
      * by rewrite lookup_insert_ne.
Qed.

Lemma cfg_set_spec (cfg : RawConfigParser) (section optname value : string) :
  section ≠ "" → section ≠ default_section →
  is_Some (cfg_sections cfg !! section) →
  ∃ cfg', cfg_set cfg section optname value = inr cfg'
          ∧ writes (target_one section optname (Some value)) cfg cfg'.
Proof.
  intros Hne Hnd [d Hd]. unfold cfg_set.
  rewrite decide_False by tauto. rewrite Hd.
  eexists. split; [reflexivity|].
  split; [done|]. split.
  - intros s Hs. simpl. destruct (decide (section = s)) as [->|Hs'].
    + by rewrite lookup_insert_eq.
    + by rewrite lookup_insert_ne.
  - intros s k. unfold lookup2, target_one. simpl.
    destruct (decide (section = s)) as [<-|Hs'].
    + rewrite lookup_insert_eq, Hd. simpl.
      destruct (decide (optname = k)) as [<-|Hk].
      * rewrite lookup_insert_eq. rewrite decide_True by done.
        by destruct (d !! optname).
      * rewrite lookup_insert_ne by done.
        rewrite decide_False by (intros [_ ?]; congruence).
        by rewrite option_union_None_l.
    + rewrite lookup_insert_ne by done.
      rewrite decide_False by (intros [? _]; congruence).
      by rewrite option_union_None_l.
Qed.

(** ** Config store: sequencing *)

Lemma has_sections_writes (S : list string) (w : string → string → option string)
    (cfg cfg' : RawConfigParser) :
  writes w cfg cfg' → has_sections S cfg → has_sections S cfg'.
Proof. intros (_ & Hs & _) HS s Hin. apply Hs, HS, Hin. Qed.

Lemma performs_ret (S : list string) :
  performs S (λ _ _, None) (λ cfg, mret cfg).
Proof. intros cfg _. exists cfg. split; [done | apply writes_refl]. Qed.

Lemma performs_ext (S : list string) (w w' : string → string → option string)
    (f : RawConfigParser → result RawConfigParser) :
  (∀ s k, w s k = w' s k) → performs S w f → performs S w' f.
Proof.
  intros Hw Hf cfg HS. destruct (Hf cfg HS) as (cfg' & Hcfg' & Hwr).
  exists cfg'. split; [done|]. by apply (writes_ext w).
Qed.

Lemma performs_weaken (S S' : list string) (w : string → string → option string)
    (f : RawConfigParser → result RawConfigParser) :
  (∀ s, s ∈ S → s ∈ S') → performs S w f → performs S' w f.
Proof. intros Hsub Hf cfg HS. apply Hf. intros s Hs. apply HS, Hsub, Hs. Qed.

Lemma performs_seq (S : list string) (w1 w2 : string → string → option string)
    (f g : RawConfigParser → result RawConfigParser) :
  performs S w1 f → performs S w2 g →
  performs S (λ s k, w2 s k ∪ w1 s k) (λ cfg, f cfg ≫= g).
Proof.
  intros Hf Hg cfg HS. destruct (Hf cfg HS) as (cfg1 & -> & Hw1).
  destruct (Hg cfg1 (has_sections_writes _ _ _ _ Hw1 HS)) as (cfg2 & Hcfg2 & Hw2).
  exists cfg2. split; [exact Hcfg2|]. by apply (writes_trans w1 w2 _ cfg1).
Qed.

Lemma performs_ensure (section : string) (S : list string)
    (w : string → string → option string)
    (g : RawConfigParser → result RawConfigParser) :
  section ≠ default_section →
  performs (section :: S) w g →
  performs S w (λ cfg, ensure_section section cfg ≫= g).
Proof.
  intros Hsec Hg cfg HS.
  destruct (ensure_section_spec section cfg Hsec) as (cfg1 & -> & Hw1 & Hhas).
  destruct (Hg cfg1) as (cfg2 & Hcfg2 & Hw2).
  { intros s [->|Hs]%elem_of_cons; [done|].
    by apply (has_sections_writes S _ cfg cfg1 Hw1). }
  exists cfg2. split; [exact Hcfg2|].
  apply (writes_ext (λ s k, w s k ∪ None)).
  - intros s k. apply option_union_None_r.
  - by apply (writes_trans (λ _ _, None) w _ cfg1).
Qed.

Lemma performs_cfg_set (section optname value : string) (S : list string) :
  section ∈ S → section ≠ "" → section ≠ default_section →
  performs S (target_one section optname (Some value))
    (λ cfg, cfg_set cfg section optname value).
Proof. intros Hin Hne Hnd cfg HS. apply cfg_set_spec; auto. Qed.

Lemma performs_set_if (x : option string) (section optname : string)
    (S : list string) :
  section ∈ S → section ≠ "" → section ≠ default_section →
  performs S (target_one section optname x)
    (λ cfg, set_if x section optname cfg).
Proof.
  intros Hin Hne Hnd. destruct x as [v|]; simpl.
  - by apply performs_cfg_set.
  - apply (performs_ext _ (λ _ _, None)); [|apply performs_ret].
    intros s k. by rewrite target_one_None.
Qed.

(** ** Config store: the blocks of [write_ini] *)

Ltac solve_sec :=
  solve [ discriminate
        | unfold default_section; discriminate
        | repeat first [apply list_elem_of_here | apply list_elem_of_further] ].

Ltac union_simpl :=
  intros ? ?;
  rewrite ?target_one_None, ?option_union_None_l, ?option_union_None_r;
  reflexivity.

Lemma set_urcnum_performs (items : list (string * option string)) (S : list string) :
  "UrCnum" ∈ S → performs S (urcnum_target items) (λ cfg, set_urcnum items cfg).
Proof.
  intros Hin. induction items as [|[band_label [n|]] items IH]; simpl.
  - apply performs_ret.
  - apply (performs_seq S (target_one "UrCnum" band_label (Some n))
             (urcnum_target items) (λ cfg, cfg_set cfg "UrCnum" band_label n));
      [apply performs_cfg_set; solve_sec || done | exact IH].
  - apply (performs_ext _ (urcnum_target items)); [|exact IH].
    intros s k. by rewrite target_one_None, option_union_None_r.
Qed.

Lemma write_UrCnum_performs (urcnum_map : list (string * option string))
    (S : list string) :
  performs S (urcnum_target urcnum_map) (λ cfg, write_UrCnum urcnum_map cfg).
Proof.
  unfold write_UrCnum. apply performs_ensure; [solve_sec|].
  apply set_urcnum_performs. solve_sec.
Qed.

Lemma set_club_ops_performs (indices : list nat) (club_ops S : list string) :
  "CLUB" ∈ S →
  performs S (club_target indices club_ops)
    (λ cfg, set_club_ops indices club_ops cfg).
Proof.
  intros Hin. induction indices as [|i indices IH]; simpl.
  - apply performs_ret.
  - apply (performs_seq S
             (target_one "CLUB" (op_key i) (Some (op_val club_ops i)))
             (club_target indices club_ops)
             (λ cfg, cfg_set cfg "CLUB" (op_key i) (op_val club_ops i)));
      [apply performs_cfg_set; solve_sec || done | exact IH].
Qed.

Lemma write_CLUB_performs (club_ops S : list string) :
  performs S (club_target (seq 1 30) club_ops) (λ cfg, write_CLUB club_ops cfg).
Proof.
  unfold write_CLUB. apply performs_ensure; [solve_sec|].
  apply set_club_ops_performs. solve_sec.
Qed.

Lemma write_Partial_performs (partial_path : option string) (S : list string) :
  performs S (target_one "Partial" "Filename" (nonempty partial_path))
    (λ cfg, write_Partial partial_path cfg).
Proof.
  unfold write_Partial. destruct (nonempty partial_path) as [p|].
  - apply performs_ensure; [solve_sec|].
    apply performs_cfg_set; solve_sec.
  - apply (performs_ext _ (λ _ _, None)); [union_simpl | apply performs_ret].
Qed.

Lemma write_CloseFname_performs (open_log_fullpath : option string)
    (S : list string) :
  performs S (target_one "CurrentData" "CloseFname" (nonempty open_log_fullpath))
    (λ cfg, write_CloseFname open_log_fullpath cfg).
Proof.
  unfold write_CloseFname. destruct (nonempty open_log_fullpath) as [p|].
  - apply performs_ensure; [solve_sec|].
    apply performs_cfg_set; solve_sec.
  - apply (performs_ext _ (λ _ _, None)); [union_simpl | apply performs_ret].
Qed.

Lemma write_Contest_performs (user_md_path : option string) (S : list string) :
  performs S (target_one "Contest" "UserContestMD" (nonempty user_md_path))
    (λ cfg, write_Contest user_md_path cfg).
Proof.
  unfold write_Contest. destruct (nonempty user_md_path) as [p|].
  - apply performs_ensure; [solve_sec|].
    apply performs_cfg_set; solve_sec.
  - apply (performs_ext _ (λ _ _, None)); [union_simpl | apply performs_ret].
Qed.

Lemma write_CW_performs (cw_cq : option string) (cw_wpm : option Z)
    (S : list string) :
  performs S (cw_target cw_cq cw_wpm) (λ cfg, write_CW cw_cq cw_wpm cfg).
Proof.
  unfold write_CW, cw_target.
  assert (Hon : performs S
            (λ s k, target_one "CW" "WPM_DEF" (pretty <$> nonzero cw_wpm) s k
                    ∪ target_one "CW" "CQ" (nonempty cw_cq) s k)
            (λ cfg, ensure_section "CW" cfg ≫= λ cfg,
                    set_if (nonempty cw_cq) "CW" "CQ" cfg ≫= λ cfg,
                    set_if (pretty <$> nonzero cw_wpm) "CW" "WPM_DEF" cfg)).
  { apply performs_ensure; [solve_sec|].
    apply (performs_seq _ _ _ (λ cfg, set_if (nonempty cw_cq) "CW" "CQ" cfg)
             (λ cfg, set_if (pretty <$> nonzero cw_wpm) "CW" "WPM_DEF" cfg));
      apply performs_set_if; solve_sec. }
  destruct (nonempty cw_cq) as [cq|], (nonzero cw_wpm) as [wpm|];
    try exact Hon.
  apply (performs_ext _ (λ _ _, None)); [union_simpl | apply performs_ret].
Qed.

Lemma write_startup_performs (startup_band_label startup_mode_label : option string)
    (S : list string) :
  performs S (startup_target startup_band_label startup_mode_label)
    (λ cfg, write_startup startup_band_label startup_mode_label cfg).
Proof.
  unfold write_startup, startup_target.
  set (band := nonempty startup_band_label).
  set (mode := nonempty startup_mode_label).
  assert (Hon : performs S
            (λ s k, target_one "Startup" "Mode" mode s k
                    ∪ (target_one "Startup" "Band" band s k
                    ∪ (target_one "CurrentData" "ModeLabel" mode s k
                    ∪ target_one "CurrentData" "BandLabel" band s k)))
            (λ cfg, ensure_section "CurrentData" cfg ≫= λ cfg,
                    set_if band "CurrentData" "BandLabel" cfg ≫= λ cfg,
                    set_if mode "CurrentData" "ModeLabel" cfg ≫= λ cfg,
                    ensure_section "Startup" cfg ≫= λ cfg,
                    set_if band "Startup" "Band" cfg ≫= λ cfg,
                    set_if mode "Startup" "Mode" cfg)).
  { apply performs_ensure; [solve_sec|].
    eapply performs_ext; cycle 1.
    - eapply (performs_seq _ _ _
               (λ cfg, set_if band "CurrentData" "BandLabel" cfg));
        [apply performs_set_if; solve_sec|].
      eapply (performs_seq _ _ _
               (λ cfg, set_if mode "CurrentData" "ModeLabel" cfg));
        [apply performs_set_if; solve_sec|].
      apply performs_ensure; [solve_sec|].
      eapply (performs_seq _ _ _ (λ cfg, set_if band "Startup" "Band" cfg)
               (λ cfg, set_if mode "Startup" "Mode" cfg));
        apply performs_set_if; solve_sec.
    - intros s k. cbv beta. by rewrite <- !option_union_assoc. }
  destruct band as [b|], mode as [m|]; try exact Hon.
  apply (performs_ext _ (λ _ _, None)); [union_simpl | apply performs_ret].
Qed.

Lemma write_ini_performs
    (urcnum_map : list (string * option string)) (club_ops : list string)
    (partial_path cw_cq : option string) (cw_wpm : option Z)
    (open_log_fullpath user_md_path startup_band_label startup_mode_label
       : option string) :
  performs []
    (write_ini_target urcnum_map club_ops partial_path cw_cq cw_wpm
       open_log_fullpath user_md_path startup_band_label startup_mode_label)
    (λ cfg, write_ini cfg urcnum_map club_ops partial_path cw_cq cw_wpm
              open_log_fullpath user_md_path startup_band_label
              startup_mode_label).
Proof.
  unfold write_ini, write_ini_target.
  eapply performs_ext; cycle 1.
  - eapply (performs_seq _ _ _ (λ cfg, write_UrCnum urcnum_map cfg));
      [apply write_UrCnum_performs|].
    eapply (performs_seq _ _ _ (λ cfg, write_CLUB club_ops cfg));
      [apply write_CLUB_performs|].
    eapply (performs_seq _ _ _ (λ cfg, write_Partial partial_path cfg));
      [apply write_Partial_performs|].
    eapply (performs_seq _ _ _ (λ cfg, write_CW cw_cq cw_wpm cfg));
      [apply write_CW_performs|].
    eapply (performs_seq _ _ _
              (λ cfg, write_startup startup_band_label startup_mode_label cfg));
      [apply write_startup_performs|].
    eapply (performs_seq _ _ _
              (λ cfg, write_CloseFname open_log_fullpath cfg)
              (λ cfg, write_Contest user_md_path cfg));
      [apply write_CloseFname_performs | apply write_Contest_performs].
  - intros s k. cbv beta. by rewrite <- !option_union_assoc.
Qed.

(** ** Config store: reading the targets *)

Lemma target_one_Some (section optname : string) (x : option string)
    (s k v : string) :
  target_one section optname x s k = Some v ↔
  s = section ∧ k = optname ∧ x = Some v.
Proof.
  unfold target_one. case_decide as Hd.
  - destruct Hd as [-> ->]. tauto.
  - split; [discriminate | tauto].
Qed.

Lemma urcnum_target_Some (items : list (string * option string)) (s k v : string) :
  urcnum_target items s k = Some v → s = "UrCnum" ∧ (k, Some v) ∈ items.
Proof.
  induction items as [|[band_label num] items IH]; simpl; [discriminate|].
  intros [Hr|[_ Hl]]%union_Some.
  - destruct (IH Hr) as [-> Hin]. split; [done | by apply list_elem_of_further].
  - apply target_one_Some in Hl. destruct Hl as (-> & -> & ->).
    split; [done | apply list_elem_of_here].
Qed.

Lemma urcnum_target_ne_section (items : list (string * option string)) (s k : string) :
  s ≠ "UrCnum" → urcnum_target items s k = None.
Proof.
  intros Hs. destruct (urcnum_target items s k) as [v|] eqn:Hv; [|done].
  apply urcnum_target_Some in Hv. tauto.
Qed.

Lemma club_target_Some (indices : list nat) (club_ops : list string) (s k v : string) :
  club_target indices club_ops s k = Some v →
  s = "CLUB" ∧ ∃ i, i ∈ indices ∧ k = op_key i ∧ v = op_val club_ops i.
Proof.
  induction indices as [|i indices IH]; simpl; [discriminate|].
  intros [Hr|[_ Hl]]%union_Some.
  - destruct (IH Hr) as (-> & j & Hj & -> & ->). split; [done|].
    exists j. split; [by apply list_elem_of_further | done].
  - apply target_one_Some in Hl. destruct Hl as (-> & -> & [= <-]).
    split; [done|]. exists i. split; [apply list_elem_of_here | done].
Qed.

Lemma club_target_ne_section (indices : list nat) (club_ops : list string)
    (s k : string) :
  s ≠ "CLUB" → club_target indices club_ops s k = None.
Proof.
  intros Hs. destruct (club_target indices club_ops s k) as [v|] eqn:Hv; [|done].
  apply club_target_Some in Hv. tauto.
Qed.

Lemma op_key_inj (i j : nat) : op_key i = op_key j → i = j.
Proof.
  unfold op_key. intros Heq.
  apply (String.app_inj "OP") in Heq. exact (pretty_nat_inj _ _ Heq).
Qed.

Lemma club_target_op_key (indices : list nat) (club_ops : list string) (i : nat) :
  i ∈ indices →
  club_target indices club_ops "CLUB" (op_key i) = Some (op_val club_ops i).
Proof.
  intros Hin.
  assert (Hsome : is_Some (club_target indices club_ops "CLUB" (op_key i))).
  { induction indices as [|j indices IH]; [by apply elem_of_nil in Hin|].
    simpl. apply elem_of_cons in Hin. destruct Hin as [<-|Hin].
    - rewrite target_one_eq.
      destruct (club_target indices club_ops "CLUB" (op_key i)); by eexists.
    - destruct (IH Hin) as [v ->]. rewrite union_Some_l. by eexists. }
  destruct Hsome as [v Hv]. rewrite Hv.
  apply club_target_Some in Hv. destruct Hv as (_ & j & _ & Hkey & ->).
  by apply op_key_inj in Hkey as ->.
Qed.

Lemma op_val_lookup (club_ops : list string) (i : nat) :
  op_val club_ops i = default "" (club_ops !! (i - 1)).
Proof.
  unfold op_val. rewrite nth_lookup. case_decide as Hi; [done|].
  by rewrite lookup_ge_None_2 by lia.
Qed.

(** ** Config store: the claims *)

Lemma has_sections_nil (cfg : RawConfigParser) : has_sections [] cfg.
Proof. intros s Hs. by apply elem_of_nil in Hs. Qed.

Lemma roster_written_of_writes (club_ops : list string)
    (w : string → string → option string) (cfg cfg' : RawConfigParser) :
  (∀ i, 1 ≤ i ≤ 30 → w "CLUB" (op_key i) = Some (op_val club_ops i)) →
  writes w cfg cfg' → roster_written club_ops cfg'.
Proof.
  intros Hw (_ & _ & Hl).
  assert (Hop : ∀ i, 1 ≤ i ≤ 30 →
            lookup2 cfg' "CLUB" (op_key i) = Some (default "" (club_ops !! (i - 1)))).
  { intros i Hi. by rewrite Hl, (Hw i Hi), union_Some_l, op_val_lookup. }
  split; [|exact Hop].
  specialize (Hop 1 ltac:(lia)). unfold lookup2 in Hop.
  destruct (cfg_sections cfg' !! "CLUB"); [by eexists | discriminate].
Qed.

Lemma write_ini_target_club
    (urcnum_map : list (string * option string)) (club_ops : list string)
    (partial_path cw_cq : option string) (cw_wpm : option Z)
    (open_log_fullpath user_md_path startup_band_label startup_mode_label
       : option string) (i : nat) :
  1 ≤ i ≤ 30 →
  write_ini_target urcnum_map club_ops partial_path cw_cq cw_wpm
    open_log_fullpath user_md_path startup_band_label startup_mode_label
    "CLUB" (op_key i) = Some (op_val club_ops i).
Proof.
  intros Hi. unfold write_ini_target, startup_target, cw_target.
  rewrite !target_one_ne_section by discriminate.
  rewrite !option_union_None_l.
  rewrite club_target_op_key by (apply elem_of_seq; lia).
  apply union_Some_l.
Qed.

(** C10: a call of [write_ini], and a call of [apply_ops_to_ini],
    succeeds on every store and leaves a store whose [CLUB] section
    exists and holds all of [OP1] .. [OP30]: [OPi] is the [i]-th
    supplied name when the list has one and the empty string otherwise,
    whatever the store held before. *)
Theorem C10_club_roster_always_written (cfg : RawConfigParser)
    (urcnum_map : list (string * option string)) (club_ops : list string)
    (partial_path cw_cq : option string) (cw_wpm : option Z)
    (open_log_fullpath user_md_path startup_band_label startup_mode_label
       : option string) :
  (∃ cfg', write_ini cfg urcnum_map club_ops partial_path cw_cq cw_wpm
             open_log_fullpath user_md_path startup_band_label
             startup_mode_label = inr cfg'
           ∧ roster_written club_ops cfg')
  ∧ (∃ cfg', apply_ops_to_ini cfg club_ops = inr cfg'
             ∧ roster_written club_ops cfg').
Proof.
  split.
  - destruct (write_ini_performs urcnum_map club_ops partial_path cw_cq cw_wpm
                open_log_fullpath user_md_path startup_band_label
                startup_mode_label cfg (has_sections_nil cfg))
      as (cfg' & Hcfg' & Hw).
    exists cfg'. split; [exact Hcfg'|].
    apply (roster_written_of_writes club_ops _ cfg cfg' (λ i Hi,
             write_ini_target_club urcnum_map club_ops partial_path cw_cq cw_wpm
               open_log_fullpath user_md_path startup_band_label
               startup_mode_label i Hi) Hw).
  - destruct (write_CLUB_performs club_ops [] cfg (has_sections_nil cfg))
      as (cfg' & Hcfg' & Hw).
    exists cfg'. split; [exact Hcfg'|].
    apply (roster_written_of_writes club_ops
             (club_target (seq 1 30) club_ops) cfg cfg'); [|exact Hw].
    intros i Hi. apply club_target_op_key, elem_of_seq. lia.
Qed.

Lemma C10_club_roster_always_written_witness :
  ∃ cfg', write_ini example_store [] ["JA1BBB"] None None None None None None None
          = inr cfg'
          ∧ lookup2 cfg' "CLUB" (op_key 1) = Some "JA1BBB"
          ∧ lookup2 cfg' "CLUB" (op_key 30) = Some "".
Proof.
  destruct (C10_club_roster_always_written example_store [] ["JA1BBB"]
              None None None None None None None) as [(cfg' & Hcfg' & _ & Hop) _].
  exists cfg'. split; [exact Hcfg'|]. split.
  - apply (Hop 1). lia.
  - apply (Hop 30). lia.
Defined.

Ltac target_eval :=
  unfold write_ini_target, startup_target, cw_target;
  rewrite ?urcnum_target_ne_section, ?club_target_ne_section by discriminate;
  unfold target_one;
  repeat match goal with
         | |- context [decide ?P] =>
             first [ rewrite (decide_True (P := P)) by (split; reflexivity)
                   | rewrite (decide_False (P := P))
                       by (intros [? ?]; congruence) ]
         end;
  rewrite ?option_union_None_l, ?option_union_None_r; reflexivity.

Section WriteIniTargets.
Variables (urcnum_map : list (string * option string)) (club_ops : list string)
          (partial_path cw_cq : option string) (cw_wpm : option Z)
          (open_log_fullpath user_md_path : option string)
          (startup_band_label startup_mode_label : option string).

Let target : string → string → option string :=
  write_ini_target urcnum_map club_ops partial_path cw_cq cw_wpm
    open_log_fullpath user_md_path startup_band_label startup_mode_label.

Lemma target_Partial : target "Partial" "Filename" = nonempty partial_path.
Proof. unfold target. target_eval. Qed.

Lemma target_CW_CQ : target "CW" "CQ" = nonempty cw_cq.
Proof. unfold target. target_eval. Qed.

Lemma target_CW_WPM : target "CW" "WPM_DEF" = pretty <$> nonzero cw_wpm.
Proof. unfold target. target_eval. Qed.

Lemma target_BandLabel :
  target "CurrentData" "BandLabel" = nonempty startup_band_label.
Proof. unfold target. target_eval. Qed.

Lemma target_ModeLabel :
  target "CurrentData" "ModeLabel" = nonempty startup_mode_label.
Proof. unfold target. target_eval. Qed.

Lemma target_Startup_Band : target "Startup" "Band" = nonempty startup_band_label.
Proof. unfold target. target_eval. Qed.

Lemma target_Startup_Mode : target "Startup" "Mode" = nonempty startup_mode_label.
Proof. unfold target. target_eval. Qed.

Lemma target_CloseFname :
  target "CurrentData" "CloseFname" = nonempty open_log_fullpath.
Proof. unfold target. target_eval. Qed.

Lemma target_Contest : target "Contest" "UserContestMD" = nonempty user_md_path.
Proof. unfold target. target_eval. Qed.

Lemma target_Some_inv (s k v : string) :
  target s k = Some v →
  (s = "UrCnum" ∧ (k, Some v) ∈ urcnum_map)
  ∨ (s = "CLUB" ∧ ∃ i, 1 ≤ i ≤ 30 ∧ k = op_key i ∧ v = op_val club_ops i)
  ∨ (s, k) ∈ single_keys.
Proof.
  unfold target, write_ini_target, startup_target, cw_target, single_keys.
  intros H.
  repeat match type of H with
         | _ ∪ _ = Some _ =>
             apply union_Some in H; destruct H as [H|[_ H]]
         end;
    try (apply target_one_Some in H; destruct H as (-> & -> & _);
         right; right; rewrite !elem_of_cons; tauto).
  - apply club_target_Some in H. destruct H as (-> & i & Hi & -> & ->).
    right; left. split; [done|]. exists i. apply elem_of_seq in Hi.
    split; [lia | done].
  - apply urcnum_target_Some in H. by left.
Qed.
End WriteIniTargets.

(** C1 (as the code has it): [write_ini] succeeds on every store and
    changes it by upserts only.  The value stored under a section and
    option afterwards is the call's target for it when there is one and
    the previous value otherwise; the [DEFAULT] options are untouched and
    no section is lost.  Each of the nine single keys has a target
    exactly when its argument is present and non-empty (non-zero for the
    WPM), so an absent or empty argument leaves the stored value as it
    was.  The only other targets are the [UrCnum] entries whose value is
    not [None] and the thirty [CLUB] keys [OP1] .. [OP30], which get a
    target on every call. *)
Theorem C1_write_ini_upserts (cfg : RawConfigParser)
    (urcnum_map : list (string * option string)) (club_ops : list string)
    (partial_path cw_cq : option string) (cw_wpm : option Z)
    (open_log_fullpath user_md_path startup_band_label startup_mode_label
       : option string) :
  let target :=
    write_ini_target urcnum_map club_ops partial_path cw_cq cw_wpm
      open_log_fullpath user_md_path startup_band_label startup_mode_label in
  (∃ cfg',
     write_ini cfg urcnum_map club_ops partial_path cw_cq cw_wpm
       open_log_fullpath user_md_path startup_band_label startup_mode_label
     = inr cfg'
     ∧ cfg_defaults cfg' = cfg_defaults cfg
     ∧ (∀ s, is_Some (cfg_sections cfg !! s) → is_Some (cfg_sections cfg' !! s))
     ∧ (∀ s k, lookup2 cfg' s k
               = match target s k with
                 | Some v => Some v
                 | None => lookup2 cfg s k
                 end))
  ∧ target "Partial" "Filename" = nonempty partial_path
  ∧ target "CW" "CQ" = nonempty cw_cq
  ∧ target "CW" "WPM_DEF" = pretty <$> nonzero cw_wpm
  ∧ target "CurrentData" "BandLabel" = nonempty startup_band_label
  ∧ target "CurrentData" "ModeLabel" = nonempty startup_mode_label
  ∧ target "Startup" "Band" = nonempty startup_band_label
  ∧ target "Startup" "Mode" = nonempty startup_mode_label
  ∧ target "CurrentData" "CloseFname" = nonempty open_log_fullpath
  ∧ target "Contest" "UserContestMD" = nonempty user_md_path
  ∧ (∀ s k v, target s k = Some v →
       (s = "UrCnum" ∧ (k, Some v) ∈ urcnum_map)
       ∨ (s = "CLUB" ∧ ∃ i, 1 ≤ i ≤ 30 ∧ k = op_key i ∧ v = op_val club_ops i)
       ∨ (s, k) ∈ single_keys).
Proof.
  intros target. split.
  - destruct (write_ini_performs urcnum_map club_ops partial_path cw_cq cw_wpm
                open_log_fullpath user_md_path startup_band_label
                startup_mode_label cfg (has_sections_nil cfg))
      as (cfg' & Hcfg' & Hd & Hs & Hl).
    exists cfg'. split; [exact Hcfg'|]. split; [exact Hd|]. split; [exact Hs|].
    intros s k. rewrite Hl. fold target.
    by destruct (target s k), (lookup2 cfg s k).
  - unfold target.
    split; [apply target_Partial|]. split; [apply target_CW_CQ|].
    split; [apply target_CW_WPM|]. split; [apply target_BandLabel|].
    split; [apply target_ModeLabel|]. split; [apply target_Startup_Band|].
    split; [apply target_Startup_Mode|]. split; [apply target_CloseFname|].
    split; [apply target_Contest|]. apply target_Some_inv.
Qed.

Lemma C1_write_ini_upserts_witness :
  ∃ cfg', write_ini example_store [] [] (Some "") None None None None None None
          = inr cfg'
          ∧ lookup2 cfg' "Partial" "Filename" = None
          ∧ lookup2 cfg' "UrCnum" "7MHz" = Some "25".
Proof.
  destruct (C1_write_ini_upserts example_store [] [] (Some "") None None None
              None None None) as [(cfg' & Hcfg' & _ & _ & Hl) (Hp & _ & _ & _ & _
              & _ & _ & _ & _ & Hinv)].
  exists cfg'. split; [exact Hcfg'|]. split.
  - rewrite Hl, Hp. vm_compute. reflexivity.
  - rewrite Hl. vm_compute. reflexivity.
Defined.

(** C1, the claim as stated, fails: with the empty string supplied for
    the 7MHz default number and an empty roster, the previously stored
    values ["25"] and ["JA1AAA"] are both replaced by the empty string. *)
Lemma C1_empty_value_overwrites :
  ∃ cfg', write_ini example_store [("7MHz", Some "")] []
            None None None None None None None = inr cfg'
          ∧ lookup2 example_store "UrCnum" "7MHz" = Some "25"
          ∧ lookup2 cfg' "UrCnum" "7MHz" = Some ""
          ∧ lookup2 example_store "CLUB" "OP1" = Some "JA1AAA"
          ∧ lookup2 cfg' "CLUB" "OP1" = Some "".
Proof.
  destruct (write_ini_performs [("7MHz", Some "")] [] None None None None None
              None None example_store (has_sections_nil _))
    as (cfg' & Hcfg' & _ & _ & Hl).
  exists cfg'. split; [exact Hcfg'|].
  split; [vm_compute; reflexivity|]. split.
  - rewrite Hl. vm_compute. reflexivity.
  - split; [vm_compute; reflexivity|]. rewrite Hl. vm_compute. reflexivity.
Qed.

(** * Further properties *)

(** ** [struct]: packing and unpacking *)

Lemma pack_H_inr (v : Z) (bs : list byte) :
  pack_H v = inr bs ↔
  u16 v ∧ bs = [byte_of_Z (v mod 256); byte_of_Z (v / 256)].
Proof.
  unfold pack_H, u16. case_decide as Hv.
  - split; [intros [= <-]; done | intros [_ ->]; done].
  - split; [discriminate | tauto].
Qed.

Lemma pack_H_inl (v : Z) (e : exn) : pack_H v = inl e → e = StructError.
Proof. unfold pack_H. case_decide; [discriminate | by intros [= <-]]. Qed.

Lemma pack_Hs_ok (vals : list Z) :
  Forall u16 vals → ∃ bs, pack_Hs vals = inr bs.
Proof.
  induction 1 as [|v vals Hv _ [bs IH]]; simpl; [by eexists|].
  rewrite pack_H_ok by exact Hv. simpl. rewrite IH. simpl. by eexists.
Qed.

Lemma pack_Hs_inr (vals : list Z) (bs : list byte) :
  pack_Hs vals = inr bs → Forall u16 vals ∧ unpack_Hs bs = vals.
Proof.
  revert bs. induction vals as [|v vals IH]; simpl; intros bs Hbs.
  - injection Hbs as <-. by split.
  - inv_bind Hbs as b Hb. inv_bind Hbs as bs' Hbs'. injection Hbs as <-.
    apply pack_H_inr in Hb. destruct Hb as [Hv ->].
    destruct (IH _ Hbs') as [Hvals Hun].
    split; [by constructor|].
    cbn [app unpack_Hs]. rewrite Hun. f_equal.
    unfold u16 in Hv.
    rewrite !Z_of_byte_of_Z.
    + pose proof (Z.div_mod v 256). lia.
    + split; [apply Z.div_pos; lia | apply Z.div_lt_upper_bound; lia].
    + apply Z.mod_pos_bound. lia.
Qed.

Lemma pack_Hs_inl (vals : list Z) (e : exn) :
  pack_Hs vals = inl e → e = StructError ∧ ¬ Forall u16 vals.
Proof.
  induction vals as [|v vals IH]; simpl; [discriminate|].
  destruct (pack_H v) as [e'|b] eqn:Hb; simpl.
  - intros [= <-]. split; [by apply (pack_H_inl v)|].
    intros Hall. apply Forall_cons in Hall. destruct Hall as [Hv _].
    apply (pack_H_ok v) in Hv. congruence.
  - destruct (pack_Hs vals) as [e'|bs] eqn:Hbs; simpl; [|discriminate].
    intros [= <-]. destruct (IH eq_refl) as [-> Hn]. split; [done|].
    intros Hall. apply Forall_cons in Hall. tauto.
Qed.

Lemma struct_pack_H_inr (n : nat) (vals : list Z) (bs : list byte) :
  struct_pack_H n vals = inr bs →
  length vals = n ∧ Forall u16 vals ∧ length bs = 2 * n ∧ unpack_Hs bs = vals.
Proof.
  intros Hbs. pose proof (struct_pack_H_length _ _ _ Hbs) as Hlen.
  unfold struct_pack_H in Hbs. case_decide as Hn; [|discriminate].
  destruct (pack_Hs_inr _ _ Hbs) as [Hall Hun]. done.
Qed.

Lemma struct_pack_H_ok (n : nat) (vals : list Z) :
  length vals = n → Forall u16 vals → ∃ bs, struct_pack_H n vals = inr bs.
Proof.
  intros Hn Hall. unfold struct_pack_H. rewrite decide_True by done.
  by apply pack_Hs_ok.
Qed.

Lemma struct_pack_H_inl (n : nat) (vals : list Z) (e : exn) :
  struct_pack_H n vals = inl e → e = StructError.
Proof.
  unfold struct_pack_H. case_decide; [|by intros [= <-]].
  intros He. by destruct (pack_Hs_inl _ _ He).
Qed.

Lemma struct_unpack_pack_H (n : nat) (vals : list Z) (bs : list byte) :
  struct_pack_H n vals = inr bs → struct_unpack_H n bs = inr vals.
Proof.
  intros Hbs. destruct (struct_pack_H_inr _ _ _ Hbs) as (_ & _ & Hlen & Hun).
  unfold struct_unpack_H. rewrite decide_True by done. simpl. by rewrite Hun.
Qed.

(** ** [Trailer.pack]: when it returns, and what *)

Section PackFacts.
Variable cp932 : string → option (list byte).

Lemma enc_cp932_nul_20_inr (name : string) (out : list byte) :
  enc_cp932_nul cp932 name 20 = inr out ↔
  ∃ e, cp932 name = Some e ∧ length e ≤ 16
       ∧ out = e ++ lit_bslash_x00 ++ bytes_mul lit_bslash_x00 (16 - length e).
Proof.
  destruct (cp932 name) as [e|] eqn:He.
  - rewrite (enc_cp932_nul_eq _ _ _ _ He). case_decide as Hlen.
    + split; [discriminate|]. intros (e' & [= <-] & Hle & _). lia.
    + replace (20 - (length e + 4)) with (16 - length e) by lia.
      split.
      * intros [= <-]. exists e. split; [done|]. split; [lia | done].
      * intros (e' & [= <-] & _ & ->). done.
  - unfold enc_cp932_nul, encode_cp932. rewrite He. simpl.
    split; [discriminate|]. intros (e' & He' & _). discriminate.
Qed.

Lemma enc_cp932_nul_20_length (name : string) (out : list byte) :
  enc_cp932_nul cp932 name 20 = inr out → length out = slot_len cp932 name.
Proof.
  intros Hout. apply enc_cp932_nul_20_inr in Hout.
  destruct Hout as (e & He & Hle & ->). unfold slot_len. rewrite He.
  rewrite !length_app, bytes_mul_length. simpl. lia.
Qed.

Lemma pack_names_inr (names : list string) :
  ∀ out r, pack_names cp932 out names = inr r →
    Forall (slot_ok cp932) names
    ∧ ∃ tail, r = out ++ tail
              ∧ length tail = sum_list (slot_len cp932 <$> names).
Proof.
  induction names as [|name names IH]; simpl; intros out r Hr.
  - injection Hr as <-. split; [constructor|]. exists [].
    by rewrite app_nil_r.
  - inv_bind Hr as e He. destruct (IH _ _ Hr) as (Hall & tail & -> & Hlen).
    split.
    + constructor; [|exact Hall].
      apply enc_cp932_nul_20_inr in He. destruct He as (e' & He' & Hle & _).
      by exists e'.
    + exists (e ++ tail). split; [by rewrite <- (assoc_L (++))|].
      rewrite length_app, Hlen, (enc_cp932_nul_20_length _ _ He). done.
Qed.

Lemma pack_names_ok (names : list string) :
  Forall (slot_ok cp932) names →
  ∀ out, ∃ r, pack_names cp932 out names = inr r.
Proof.
  induction 1 as [|name names (e & He & Hle) _ IH]; intros out; simpl.
  - by eexists.
  - rewrite (enc_cp932_nul_eq _ _ _ _ He), decide_False by lia. simpl.
    apply IH.
Qed.

Lemma packable_pack (t : Trailer) :
  packable cp932 t → ∃ tr, pack cp932 t = inr tr.
Proof.
  intros (Hs & [Hpl Hpp] & [Hcl Hpc] & Hnames & Hpath). unfold pack.
  destruct (struct_pack_H_ok 6 _ (eq_refl : length [_; _; _; _; _; _] = 6) Hs)
    as [h ->].
  destruct (struct_pack_H_ok FREQNUM _ Hpl Hpp) as [pp ->].
  destruct (struct_pack_H_ok FREQNUM _ Hcl Hpc) as [pc ->].
  cbn [mbind result_bind].
  destruct (pack_names_ok _ Hnames (([] ++ h) ++ pp ++ pc)) as [r Hr].
  rewrite (assoc_L (++)) in Hr. rewrite Hr. cbn [mbind result_bind].
  destruct (UserDefinedMultiPath t) as [[|c p]|]; try by eexists.
  destruct Hpath as [e He]. unfold encode_cp932. rewrite He. by eexists.
Qed.

Lemma pack_packable (t : Trailer) (tr : list byte) :
  pack cp932 t = inr tr →
  packable cp932 t
  ∧ struct_unpack_H 6 (take 12 tr)
    = inr [ModeCurrent t; Is001Style t; DupePolicy t;
           FreqCurrent t; ContestKind t; TwiceMinusOne t]
  ∧ length tr = 12 + 2 * FREQNUM * 2
                + sum_list (slot_len cp932 <$> pad30 (ClubOpName t))
                + path_len cp932 (UserDefinedMultiPath t).
Proof.
  unfold pack. intros Htr.
  inv_bind Htr as h Hh. inv_bind Htr as pp Hpp. inv_bind Htr as pc Hpc.
  inv_bind Htr as out Hout.
  destruct (pack_names_inr _ _ _ Hout) as (Hnames & tail & -> & Htail).
  pose proof (struct_unpack_pack_H _ _ _ Hh) as Hun.
  destruct (struct_pack_H_inr _ _ _ Hh) as (_ & Hs & Hhl & _).
  destruct (struct_pack_H_inr _ _ _ Hpp) as (Hppn & Hppr & Hppl & _).
  destruct (struct_pack_H_inr _ _ _ Hpc) as (Hpcn & Hpcr & Hpcl & _).
  rewrite app_nil_l in Htr.
  assert (Hpre : ∀ rest, take 12 ((((h ++ pp) ++ pc) ++ tail) ++ rest) = h).
  { intros rest. rewrite <- !(assoc_L (++)). by apply take_app_length'. }
  assert (Hlen : ∀ rest,
            length ((((h ++ pp) ++ pc) ++ tail) ++ rest)
            = 12 + 2 * FREQNUM * 2
              + sum_list (slot_len cp932 <$> pad30 (ClubOpName t))
              + length rest).
  { intros rest. rewrite !length_app, Hhl, Hppl, Hpcl, Htail. lia. }
  unfold packable, table_ok, path_len.
  destruct (UserDefinedMultiPath t) as [[|c p]|].
  - injection Htr as <-.
    rewrite <- (app_nil_r (((h ++ pp) ++ pc) ++ tail)), Hpre, Hlen. done.
  - inv_bind Htr as e He. injection Htr as <-.
    unfold encode_cp932 in He.
    destruct (cp932 (String c p)) as [e'|] eqn:He'; [|discriminate].
    injection He as <-.
    rewrite Hpre, Hlen, length_app. simpl.
    repeat split; try done; by eexists.
  - injection Htr as <-.
    rewrite <- (app_nil_r (((h ++ pp) ++ pc) ++ tail)), Hpre, Hlen. done.
Qed.

End PackFacts.

(** ** [inspect_lg8]: when it returns *)

Lemma struct_unpack_H_1_take2 (b : list byte) :
  struct_unpack_H 1 (take 2 b)
  = match read_qso b with
    | Some qso => inr [qso]
    | None => inl StructError
    end.
Proof. destruct b as [|b0 [|b1 rest]]; reflexivity. Qed.

Lemma read_qso_range (b : list byte) (qso : Z) :
  read_qso b = Some qso → u16 qso ∧ 2 ≤ length b.
Proof.
  destruct b as [|b0 [|b1 rest]]; try discriminate. intros [= <-].
  pose proof (Z_of_byte_range b0). pose proof (Z_of_byte_range b1).
  unfold u16. simpl. lia.
Qed.

Lemma slice12_length (b : list byte) (off : Z) :
  (0 ≤ off)%Z →
  length (slice b off (off + 12)) = 12 ↔ (off + 12 ≤ Z.of_nat (length b))%Z.
Proof.
  intros Hoff. unfold slice.
  replace (off + 12 - off)%Z with 12%Z by lia.
  rewrite length_take, length_drop. change (Z.to_nat 12) with 12. lia.
Qed.

Lemma unpack_Hs_u16 (s : list byte) : Forall u16 (unpack_Hs s).
Proof.
  induction s as [s IH] using (induction_ltof1 _ length). unfold ltof in IH.
  destruct s as [|b0 [|b1 rest]]; simpl; try constructor.
  - pose proof (Z_of_byte_range b0). pose proof (Z_of_byte_range b1).
    unfold u16. lia.
  - apply IH. simpl. lia.
Qed.

Lemma unpack_Hs_12 (s : list byte) :
  length s = 12 →
  ∃ v0 v1 v2 v3 v4 v5, unpack_Hs s = [v0; v1; v2; v3; v4; v5].
Proof.
  intros Hs.
  do 12 (destruct s as [|? s]; [discriminate Hs|]).
  destruct s; [|discriminate Hs]. simpl. by do 6 eexists.
Qed.

Lemma inspect_lg8_at (b : list byte) (qso : Z) :
  read_qso b = Some qso →
  let off := trailer_offset (length b) qso in
  inspect_lg8 b
  = match struct_unpack_H 6 (slice b off (off + 12)) with
    | inr [mode; _; _; freq; kind; _] =>
        inr {| insp_qso := qso;
               insp_mode := mode; insp_mode_label := mode_label mode;
               insp_freq := freq; insp_band_label := band_label freq;
               insp_kind := kind; insp_off := off |}
    | inr _ => inl StructError
    | inl e => inl e
    end.
Proof.
  intros Hq off. unfold inspect_lg8. rewrite struct_unpack_H_1_take2, Hq.
  cbn [mbind result_bind]. fold off.
  destruct (struct_unpack_H 6 (slice b off (off + 12))) as [e|vals]; [done|].
  cbn [mbind result_bind].
  by destruct vals as [|? [|? [|? [|? [|? [|? [|? ?]]]]]]].
Qed.

Lemma inspect_lg8_cases (b : list byte) :
  match read_qso b with
  | Some qso =>
      if decide (14 + 170 * qso ≤ Z.of_nat (length b))%Z
      then ∃ r, inspect_lg8 b = inr r ∧ insp_qso r = qso
                ∧ u16 (insp_mode r) ∧ u16 (insp_freq r) ∧ u16 (insp_kind r)
                ∧ insp_off r = trailer_offset (length b) qso
      else inspect_lg8 b = inl StructError
  | None => inspect_lg8 b = inl StructError
  end.
Proof.
  destruct (read_qso b) as [qso|] eqn:Hq.
  - rewrite (inspect_lg8_at b qso Hq). cbv zeta.
    destruct (read_qso_range _ _ Hq) as [Hr _]. unfold u16 in Hr.
    set (off := trailer_offset (length b) qso).
    assert (Hoff : (0 ≤ off)%Z).
    { unfold off. rewrite trailer_offset_spec. case_decide; lia. }
    pose proof (slice12_length b off Hoff) as Hlen.
    assert (Hfit : (off + 12 ≤ Z.of_nat (length b))%Z
                   ↔ (14 + 170 * qso ≤ Z.of_nat (length b))%Z).
    { unfold off. rewrite trailer_offset_spec. case_decide; lia. }
    unfold struct_unpack_H.
    case_decide as Hfits.
    + rewrite decide_True by (apply Hlen, Hfit, Hfits).
      destruct (unpack_Hs_12 (slice b off (off + 12)))
        as (v0 & v1 & v2 & v3 & v4 & v5 & Hv); [apply Hlen, Hfit, Hfits|].
      pose proof (unpack_Hs_u16 (slice b off (off + 12))) as Hu.
      rewrite Hv in Hu. cbn [mret result_ret]. rewrite Hv.
      eexists. split; [reflexivity|]. cbn.
      repeat (apply Forall_cons in Hu; destruct Hu as [? Hu]). done.
    + rewrite decide_False; [done|]. intros Hl. apply Hfits, Hfit, Hlen, Hl.
  - unfold inspect_lg8. by rewrite struct_unpack_H_1_take2, Hq.
Qed.

Lemma inspect_lg8_selects (b : list byte) (qso : Z) :
  read_qso b = Some qso →
  let off := if decide (2 + qso * 170 + 12 ≤ Z.of_nat (length b)
                        ∧ Z.of_nat (length b) < 16 + qso * 170 + 12)%Z
             then (2 + qso * 170)%Z else (16 + qso * 170)%Z in
  if decide (off + 12 ≤ Z.of_nat (length b))%Z
  then ∃ r u1 u2 u3,
         inspect_lg8 b = inr r ∧ insp_qso r = qso ∧ insp_off r = off
         ∧ struct_unpack_H 6 (slice b off (off + 12))
           = inr [insp_mode r; u1; u2; insp_freq r; insp_kind r; u3]
  else inspect_lg8 b = inl StructError.
Proof.
  intros Hq. rewrite (inspect_lg8_at b qso Hq). cbv zeta.
  rewrite trailer_offset_spec.
  set (off := if decide (2 + qso * 170 + 12 ≤ Z.of_nat (length b)
                         ∧ Z.of_nat (length b) < 16 + qso * 170 + 12)%Z
              then (2 + qso * 170)%Z else (16 + qso * 170)%Z).
  destruct (read_qso_range _ _ Hq) as [Hr _]. unfold u16 in Hr.
  assert (Hoff : (0 ≤ off)%Z) by (unfold off; case_decide; lia).
  pose proof (slice12_length b off Hoff) as Hlen.
  unfold struct_unpack_H.
  case_decide as Hfits.
  - rewrite decide_True by (apply Hlen, Hfits).
    destruct (unpack_Hs_12 (slice b off (off + 12)))
      as (v0 & v1 & v2 & v3 & v4 & v5 & Hv); [apply Hlen, Hfits|].
    cbn [mret result_ret]. rewrite Hv.
    eexists _, v1, v2, v5. split; [reflexivity|]. done.
  - rewrite decide_False; [done|]. intros Hl. apply Hfits, Hlen, Hl.
Qed.

(** C7: for a buffer whose first two bytes decode (little-endian) to
    [qso], [inspect_lg8] decodes the trailer at the legacy offset
    [2 + qso*170] exactly when [len(b) >= offLegacy + 12] and
    [len(b) < offExt + 12], and at the extended offset [16 + qso*170]
    in every other case: in the first case it returns the six fields
    found at [offLegacy] and reports that offset; otherwise it returns
    the fields found at [offExt] when 12 bytes are there, and fails with
    [struct.error] when they are not (it does not fall back to the
    legacy offset).  So an inspection that returns reports the legacy
    offset if and only if the legacy test holds. *)
Theorem C7_offset_selection (b : list byte) (qso : Z) :
  struct_unpack_H 1 (take 2 b) = inr [qso] →
  let offLegacy := (2 + qso * 170)%Z in
  let offExt := (16 + qso * 170)%Z in
  let legacy_fits := (Z.of_nat (length b) >= offLegacy + 12
                      ∧ Z.of_nat (length b) < offExt + 12)%Z in
  let decoded_at (off : Z) (r : Inspection) :=
    insp_qso r = qso ∧ insp_off r = off
    ∧ ∃ u1 u2 u3,
        struct_unpack_H 6 (slice b off (off + 12))
        = inr [insp_mode r; u1; u2; insp_freq r; insp_kind r; u3] in
  (legacy_fits → ∃ r, inspect_lg8 b = inr r ∧ decoded_at offLegacy r)
  ∧ (¬ legacy_fits → (Z.of_nat (length b) >= offExt + 12)%Z →
       ∃ r, inspect_lg8 b = inr r ∧ decoded_at offExt r)
  ∧ (¬ legacy_fits → (Z.of_nat (length b) < offExt + 12)%Z →
       inspect_lg8 b = inl StructError)
  ∧ (∀ r, inspect_lg8 b = inr r →
       insp_qso r = qso
       ∧ (insp_off r = offLegacy ↔ legacy_fits)
       ∧ (¬ legacy_fits → insp_off r = offExt)).
Proof.
  intros Hq offLegacy offExt legacy_fits decoded_at.
  rewrite struct_unpack_H_1_take2 in Hq.
  destruct (read_qso b) as [q|] eqn:Hrq; [|discriminate Hq].
  injection Hq as ->.
  pose proof (inspect_lg8_selects b qso Hrq) as Hsel. cbv zeta in Hsel.
  unfold legacy_fits, decoded_at, offLegacy, offExt.
  destruct (decide (2 + qso * 170 + 12 ≤ Z.of_nat (length b)
                    ∧ Z.of_nat (length b) < 16 + qso * 170 + 12)%Z)
    as [Hl|Hl].
  - rewrite decide_True in Hsel by lia.
    destruct Hsel as (r & u1 & u2 & u3 & Hr & Hrq' & Hoff & Hv).
    split; [|split; [|split]].
    + intros _. exists r. split; [exact Hr|]. split; [exact Hrq'|].
      split; [exact Hoff|]. by exists u1, u2, u3.
    + intros Hn. exfalso. apply Hn. lia.
    + intros Hn. exfalso. apply Hn. lia.
    + intros r' Hr'. rewrite Hr in Hr'. injection Hr' as <-.
      split; [exact Hrq'|]. split.
      * split; [lia | done].
      * intros Hn. exfalso. apply Hn. lia.
  - destruct (decide (16 + qso * 170 + 12 ≤ Z.of_nat (length b))%Z)
      as [Hfits|Hfits].
    + destruct Hsel as (r & u1 & u2 & u3 & Hr & Hrq' & Hoff & Hv).
      split; [|split; [|split]].
      * intros Hy. exfalso. apply Hl. lia.
      * intros _ _. exists r. split; [exact Hr|]. split; [exact Hrq'|].
        split; [exact Hoff|]. by exists u1, u2, u3.
      * intros _ Hlt. lia.
      * intros r' Hr'. rewrite Hr in Hr'. injection Hr' as <-.
        split; [exact Hrq'|]. split; [|done].
        split; [intros Heq; lia | intros Hy; exfalso; apply Hl; lia].
    + split; [|split; [|split]].
      * intros Hy. exfalso. apply Hl. lia.
      * intros _ Hge. lia.
      * intros _ _. exact Hsel.
      * intros r' Hr'. rewrite Hsel in Hr'. discriminate Hr'.
Qed.

Lemma C7_offset_selection_witness :
  (∃ r, inspect_lg8 (replicate 14 Byte.x00) = inr r ∧ insp_off r = 2%Z)
  ∧ (∃ r, inspect_lg8 (replicate 28 Byte.x00) = inr r ∧ insp_off r = 16%Z)
  ∧ inspect_lg8 (replicate 13 Byte.x00) = inl StructError.
Proof.
  destruct (C7_offset_selection (replicate 14 Byte.x00) 0 eq_refl)
    as (Hl & _ & _ & _).
  destruct (C7_offset_selection (replicate 28 Byte.x00) 0 eq_refl)
    as (_ & He & _ & _).
  destruct (C7_offset_selection (replicate 13 Byte.x00) 0 eq_refl)
    as (_ & _ & Hs & _).
  split; [|split].
  - destruct Hl as (r & Hr & _ & Hoff & _); [simpl; lia|]. by exists r.
  - destruct He as (r & Hr & _ & Hoff & _); [simpl; lia | simpl; lia|].
    by exists r.
  - apply Hs; simpl; lia.
Defined.

(** ** Extras: trailer codec and blank containers *)

Lemma slot_len_bounds (cp932 : string → option (list byte)) (names : list string) :
  Forall (slot_ok cp932) names →
  20 * length names ≤ sum_list (slot_len cp932 <$> names) ≤ 68 * length names.
Proof.
  induction 1 as [|name names (e & He & Hle) _ IH]; [simpl; lia|].
  assert (Hs : slot_len cp932 name = 68 - 3 * length e)
    by (unfold slot_len; by rewrite He).
  rewrite fmap_cons. cbn [sum_list sum_list_with length id]. rewrite Hs. lia.
Qed.

Lemma pack_returns_iff (cp932 : string → option (list byte)) (t : Trailer) :
  (∃ tr, pack cp932 t = inr tr) ↔ packable cp932 t.
Proof.
  split.
  - intros [tr Htr]. by destruct (pack_packable cp932 t tr Htr).
  - apply packable_pack.
Qed.

(** X1: [Trailer.pack] returns bytes exactly for the trailers whose six
    scalars and 2 x 23 table entries fit an unsigned 16-bit field, whose
    tables have 23 entries, whose 30 roster names (after padding and
    truncation) are encodable in at most 16 bytes each, and whose path,
    when non-empty, is encodable. *)
Theorem X1_pack_returns_iff_packable
    (cp932 : string → option (list byte)) (t : Trailer) :
  (∃ tr, pack cp932 t = inr tr) ↔ packable cp932 t.
Proof. apply pack_returns_iff. Qed.

(** X2: decoding the first 12 bytes of a packed trailer as six
    little-endian 16-bit values gives back the six scalar fields, in the
    order mode, 001-style, dupe policy, band, contest kind,
    twice-minus-one. *)
Theorem X2_pack_leading_roundtrip
    (cp932 : string → option (list byte)) (t : Trailer) (tr : list byte) :
  pack cp932 t = inr tr →
  struct_unpack_H 6 (take 12 tr)
  = inr [ModeCurrent t; Is001Style t; DupePolicy t;
         FreqCurrent t; ContestKind t; TwiceMinusOne t].
Proof. intros Htr. by destruct (pack_packable cp932 t tr Htr) as (_ & Hun & _). Qed.

Lemma X2_pack_leading_roundtrip_witness :
  ∃ tr, pack cp932_ascii (blank_trailer 3 2 1 0 0 0 None (Some "a.md")) = inr tr
        ∧ struct_unpack_H 6 (take 12 tr) = inr [3; 0; 0; 2; 1; 0]%Z.
Proof.
  destruct (pack cp932_ascii (blank_trailer 3 2 1 0 0 0 None (Some "a.md")))
    as [e|tr] eqn:Htr; [vm_compute in Htr; discriminate|].
  exists tr. split; [reflexivity|].
  exact (X2_pack_leading_roundtrip cp932_ascii _ tr Htr).
Defined.

(** X3: the length of a packed trailer is 12 + 2*23*2 bytes plus, per
    roster slot, [68 - 3 * len] bytes for a name of [len] encoded bytes,
    plus [len + 4] bytes for a non-empty path.  It therefore lies
    between 704 and 2144 bytes before the path, and is 704 only when
    every one of the 30 names encodes to exactly 16 bytes. *)
Theorem X3_pack_length
    (cp932 : string → option (list byte)) (t : Trailer) (tr : list byte) :
  pack cp932 t = inr tr →
  let slots := sum_list (slot_len cp932 <$> pad30 (ClubOpName t)) in
  length tr = 12 + 2 * 23 * 2 + slots + path_len cp932 (UserDefinedMultiPath t)
  ∧ 600 ≤ slots ≤ 2040.
Proof.
  intros Htr slots.
  destruct (pack_packable cp932 t tr Htr) as ((_ & _ & _ & Hnames & _) & _ & Hlen).
  split; [exact Hlen|].
  pose proof (slot_len_bounds cp932 _ Hnames) as Hb.
  rewrite pad30_length in Hb. unfold slots. lia.
Qed.

Lemma X3_pack_length_witness :
  ∃ tr, pack cp932_ascii
          (blank_trailer 3 2 1 0 0 0 (Some ["JA1AAA"]) (Some "a.md")) = inr tr
        ∧ length tr = 12 + 2 * 23 * 2 + (50 + 29 * 68) + 8.
Proof.
  destruct (pack cp932_ascii
              (blank_trailer 3 2 1 0 0 0 (Some ["JA1AAA"]) (Some "a.md")))
    as [e|tr] eqn:Htr; [vm_compute in Htr; discriminate|].
  exists tr. split; [reflexivity|].
  destruct (X3_pack_length cp932_ascii _ tr Htr) as [Hlen _].
  rewrite Hlen. vm_compute. reflexivity.
Defined.

Lemma blank_roster
    (mode_code band_code contest_kind is001 dupe_policy twice_minus_one : Z)
    (club_ops : option (list string)) (md_path : option string) :
  ClubOpName (blank_trailer mode_code band_code contest_kind is001 dupe_policy
                twice_minus_one club_ops md_path)
  = pad30 (default [] club_ops).
Proof. by destruct club_ops as [[|op ops]|]. Qed.

Lemma table_ok_default : table_ok (replicate FREQNUM 1%Z).
Proof.
  split; [apply length_replicate|].
  apply Forall_replicate. unfold u16. lia.
Qed.

Lemma packable_blank (cp932 : string → option (list byte))
    (mode_code band_code contest_kind is001 dupe_policy twice_minus_one : Z)
    (club_ops : option (list string)) (md_path : option string) :
  packable cp932 (blank_trailer mode_code band_code contest_kind is001
                    dupe_policy twice_minus_one club_ops md_path)
  ↔ Forall u16 [mode_code; is001; dupe_policy; band_code; contest_kind;
                twice_minus_one]
    ∧ Forall (slot_ok cp932) (pad30 (default [] club_ops))
    ∧ match md_path with
      | Some (String c p) => is_Some (cp932 (String c p))
      | _ => True
      end.
Proof.
  unfold packable. rewrite blank_roster, pad30_idemp.
  cbn [blank_trailer ModeCurrent Is001Style DupePolicy FreqCurrent ContestKind
       TwiceMinusOne PointPhone PointCW UserDefinedMultiPath Trailer_default].
  pose proof table_ok_default. tauto.
Qed.

(** X4: [create_blank_lg8] returns bytes exactly when the six scalar
    arguments fit an unsigned 16-bit field, the roster names (padded and
    cut to 30) are encodable in at most 16 bytes each and a non-empty
    path is encodable; with a scalar out of range it raises
    [struct.error] and returns nothing. *)
Theorem X4_create_blank_returns_iff (cp932 : string → option (list byte))
    (mode_code band_code contest_kind is001 dupe_policy twice_minus_one : Z)
    (club_ops : option (list string)) (md_path : option string)
    (header_legacy_2bytes : bool) :
  let scalars := [mode_code; is001; dupe_policy; band_code; contest_kind;
                  twice_minus_one] in
  let call := create_blank_lg8 cp932 mode_code band_code contest_kind is001
                dupe_policy twice_minus_one club_ops md_path
                header_legacy_2bytes in
  ((∃ out, call = inr out)
   ↔ Forall u16 scalars
     ∧ Forall (slot_ok cp932) (pad30 (default [] club_ops))
     ∧ match md_path with
       | Some (String c p) => is_Some (cp932 (String c p))
       | _ => True
       end)
  ∧ (¬ Forall u16 scalars → call = inl StructError).
Proof.
  intros scalars call. split.
  - unfold scalars, call. split.
    + intros [out Hout]. apply create_blank_lg8_inv in Hout.
      destruct Hout as (tr & Htr & _).
      apply packable_blank, pack_returns_iff. by exists tr.
    + intros Hok. apply packable_blank, pack_returns_iff in Hok.
      destruct Hok as [tr Htr]. eexists. apply create_blank_lg8_inv.
      by exists tr.
  - intros Hn. unfold call, create_blank_lg8. rewrite pack_H_0.
    cbn [mbind result_bind]. unfold pack.
    cbn [blank_trailer ModeCurrent Is001Style DupePolicy FreqCurrent ContestKind
         TwiceMinusOne].
    destruct (struct_pack_H 6 _) as [e|h] eqn:Hh.
    + apply struct_pack_H_inl in Hh. by subst e.
    + apply struct_pack_H_inr in Hh. tauto.
Qed.

Section RosterSlots.
Variable cp932 : string → option (list byte).

Lemma pack_names_slots (names : list string) :
  ∀ out r, pack_names cp932 out names = inr r →
    ∃ slots, Forall2 (λ name e, enc_cp932_nul cp932 name 20 = inr e) names slots
             ∧ r = out ++ concat slots.
Proof.
  induction names as [|name names IH]; simpl; intros out r Hr.
  - injection Hr as <-. exists []. split; [constructor|].
    by rewrite app_nil_r.
  - inv_bind Hr as e He. destruct (IH _ _ Hr) as (slots & Hall & ->).
    exists (e :: slots). split; [by constructor|].
    simpl. by rewrite <- (assoc_L (++)).
Qed.

Lemma pack_slots (t : Trailer) (tr : list byte) :
  pack cp932 t = inr tr →
  ∃ slots rest,
    Forall2 (λ name e, enc_cp932_nul cp932 name 20 = inr e)
      (pad30 (ClubOpName t)) slots
    ∧ drop (12 + 2 * FREQNUM * 2) tr = concat slots ++ rest.
Proof.
  unfold pack. intros Htr.
  inv_bind Htr as h Hh. inv_bind Htr as pp Hpp. inv_bind Htr as pc Hpc.
  inv_bind Htr as out Hout.
  destruct (pack_names_slots _ _ _ Hout) as (slots & Hslots & ->).
  apply struct_pack_H_length in Hh, Hpp, Hpc.
  assert (Hpre : length ((([] ++ h) ++ pp) ++ pc) = 12 + 2 * FREQNUM * 2).
  { rewrite !length_app, Hh, Hpp, Hpc. simpl. lia. }
  destruct (UserDefinedMultiPath t) as [[|c p]|].
  - injection Htr as <-. exists slots, []. split; [exact Hslots|].
    rewrite app_nil_r. by apply drop_app_length'.
  - inv_bind Htr as e He. injection Htr as <-.
    exists slots, (e ++ lit_bslash_x00). split; [exact Hslots|].
    rewrite <- (assoc_L (++)). by apply drop_app_length'.
  - injection Htr as <-. exists slots, []. split; [exact Hslots|].
    rewrite app_nil_r. by apply drop_app_length'.
Qed.

Lemma pad30_take30 (names : list string) : pad30 (take 30 names) = pad30 names.
Proof.
  unfold pad30. destruct (decide (30 ≤ length names)) as [Hge|Hlt].
  - rewrite !take_app_le by (rewrite ?length_take; lia).
    by rewrite take_take.
  - by rewrite (take_ge names 30) by lia.
Qed.

Lemma blank_trailer_take30
    (mode_code band_code contest_kind is001 dupe_policy twice_minus_one : Z)
    (club_ops : option (list string)) (md_path : option string) :
  blank_trailer mode_code band_code contest_kind is001 dupe_policy
    twice_minus_one (Some (take 30 (default [] club_ops))) md_path
  = blank_trailer mode_code band_code contest_kind is001 dupe_policy
      twice_minus_one club_ops md_path.
Proof.
  unfold blank_trailer. f_equal.
  destruct club_ops as [[|op ops]|]; [done| |done].
  change (take 30 (default [] (Some (op :: ops)))) with (op :: take 29 ops).
  apply (pad30_take30 (op :: ops)).
Qed.

(** C9: the roster of the trailer that [create_blank_lg8] builds is the
    supplied names in their order, followed by empty strings, cut to 30
    slots: it has exactly 30 entries, its first [min (len names) 30]
    entries are the supplied names and the remaining ones are empty.
    Names past the 30th play no part: the call behaves as on the first
    30 names alone, so a longer list is cut, not rejected; whether the
    call returns depends on the 30 roster entries only.  The bytes it
    writes hold, right after the header and the 104 bytes of scalars
    and tables, the fixed-width encodings of exactly these 30 entries,
    in order, as [Trailer.pack] emits them. *)
Theorem C9_roster_padded_truncated
    (mode_code band_code contest_kind is001 dupe_policy twice_minus_one : Z)
    (club_ops : option (list string)) (md_path : option string)
    (header_legacy_2bytes : bool) :
  let names := default [] club_ops in
  let roster := ClubOpName (blank_trailer mode_code band_code contest_kind is001
                              dupe_policy twice_minus_one club_ops md_path) in
  let call := λ ops, create_blank_lg8 cp932 mode_code band_code contest_kind
                       is001 dupe_policy twice_minus_one ops md_path
                       header_legacy_2bytes in
  let off := if header_legacy_2bytes then 2 else 58 in
  roster = take 30 (names ++ replicate 30 "")
  ∧ length roster = 30
  ∧ (∀ i, i < min (length names) 30 → roster !! i = names !! i)
  ∧ (∀ i, length names ≤ i < 30 → roster !! i = Some "")
  ∧ pad30 roster = roster
  ∧ call club_ops = call (Some (take 30 names))
  ∧ ((∃ out, call club_ops = inr out)
     ↔ Forall u16 [mode_code; is001; dupe_policy; band_code; contest_kind;
                   twice_minus_one]
       ∧ Forall (slot_ok cp932) roster
       ∧ match md_path with
         | Some (String c p) => is_Some (cp932 (String c p))
         | _ => True
         end)
  ∧ (∀ out, call club_ops = inr out →
       ∃ slots rest,
         Forall2 (λ name e, enc_cp932_nul cp932 name 20 = inr e) roster slots
         ∧ drop (off + 104) out = concat slots ++ rest).
Proof.
  intros names roster call off.
  assert (Hroster : roster = pad30 names) by apply blank_roster.
  rewrite Hroster.
  split; [reflexivity|].
  split; [apply pad30_length|].
  split; [|split; [|split; [|split; [|split]]]].
  - intros i Hi. rewrite pad30_lookup by lia.
    destruct (lookup_lt_is_Some_2 names i) as [x ->]; [lia | done].
  - intros i Hi. rewrite pad30_lookup by lia.
    by rewrite (lookup_ge_None_2 names i) by lia.
  - apply pad30_idemp.
  - unfold call, create_blank_lg8, names. by rewrite blank_trailer_take30.
  - unfold call, names. split.
    + intros [out Hout]. apply create_blank_lg8_inv in Hout.
      destruct Hout as (tr & Htr & _).
      apply packable_blank, pack_returns_iff. by exists tr.
    + intros Hok. apply packable_blank, pack_returns_iff in Hok.
      destruct Hok as [tr Htr]. eexists. apply create_blank_lg8_inv.
      by exists tr.
  - intros out Hout. unfold call in Hout.
    apply create_blank_lg8_inv in Hout. destruct Hout as (tr & Htr & ->).
    destruct (pack_slots _ _ Htr) as (slots & rest & Hslots & Hdrop).
    fold roster in Hslots. rewrite Hroster, pad30_idemp in Hslots.
    exists slots, rest. split; [exact Hslots|].
    rewrite <- Hdrop. unfold off, FREQNUM.
    destruct header_legacy_2bytes.
    + reflexivity.
    + rewrite (assoc_L (++)).
      apply (drop_app_add'
               ([Byte.x00; Byte.x00] ++ bytes_mul lit_bslash_x00 HEADER_EXTRA)
               tr 58 104).
      rewrite length_app, bytes_mul_length. reflexivity.
Qed.

End RosterSlots.

Lemma C9_roster_padded_truncated_witness :
  ∃ out slots rest,
    create_blank_lg8 cp932_ascii 3 2 1 0 0 0
      (Some (replicate 30 "JA1AAA" ++ ["A THIRTY-FIRST NAME THAT FITS NO SLOT"]))
      None true = inr out
    ∧ create_blank_lg8 cp932_ascii 3 2 1 0 0 0 (Some (replicate 30 "JA1AAA"))
        None true = inr out
    ∧ Forall2 (λ name e, enc_cp932_nul cp932_ascii name 20 = inr e)
        (replicate 30 "JA1AAA") slots
    ∧ drop 106 out = concat slots ++ rest.
Proof.
  destruct (C9_roster_padded_truncated cp932_ascii 3 2 1 0 0 0
              (Some (replicate 30 "JA1AAA"
                     ++ ["A THIRTY-FIRST NAME THAT FITS NO SLOT"])) None true)
    as (Hroster & _ & _ & _ & _ & Heq & _ & Hslots).
  cbv zeta in Heq, Hslots.
  change (take 30 (default [] (Some (replicate 30 "JA1AAA"
            ++ ["A THIRTY-FIRST NAME THAT FITS NO SLOT"]))))
    with (replicate 30 "JA1AAA") in Heq.
  rewrite Hroster in Hslots.
  change (take 30 (default [] (Some (replicate 30 "JA1AAA"
            ++ ["A THIRTY-FIRST NAME THAT FITS NO SLOT"])) ++ replicate 30 ""))
    with (replicate 30 "JA1AAA") in Hslots.
  destruct (create_blank_lg8 cp932_ascii 3 2 1 0 0 0
              (Some (replicate 30 "JA1AAA")) None true)
    as [e|out] eqn:Hout; [vm_compute in Hout; discriminate|].
  destruct (Hslots out Heq) as (slots & rest & Hall & Hdrop).
  exists out, slots, rest.
  split; [exact Heq|]. split; [reflexivity|].
  split; [exact Hall | exact Hdrop].
Defined.

Lemma read_qso_pack_H (q : Z) (c rest : list byte) :
  pack_H q = inr c → read_qso (c ++ rest) = Some q.
Proof.
  intros Hc. apply pack_H_inr in Hc. destruct Hc as [Hq ->]. unfold u16 in Hq.
  cbn [app read_qso]. f_equal.
  rewrite !Z_of_byte_of_Z.
  - pose proof (Z.div_mod q 256). lia.
  - split; [apply Z.div_pos; lia | apply Z.div_lt_upper_bound; lia].
  - apply Z.mod_pos_bound. lia.
Qed.

Lemma unpack_Hs_drop2 (s : list byte) :
  unpack_Hs (drop 2 s) = drop 1 (unpack_Hs s).
Proof. by destruct s as [|b0 [|b1 rest]]. Qed.

Lemma unpack_Hs_take (n : nat) (s : list byte) :
  unpack_Hs (take (2 * n) s) = take n (unpack_Hs s).
Proof.
  revert s. induction n as [|n IH]; intros s; [by destruct s|].
  replace (2 * S n) with (S (S (2 * n))) by lia.
  destruct s as [|b0 [|b1 rest]]; [done | done |].
  cbn [take unpack_Hs]. by rewrite IH.
Qed.

Lemma create_blank_fields (cp932 : string → option (list byte))
    (mode_code band_code contest_kind is001 dupe_policy twice_minus_one : Z)
    (club_ops : option (list string)) (md_path : option string)
    (header_legacy_2bytes : bool) (out : list byte) :
  create_blank_lg8 cp932 mode_code band_code contest_kind is001 dupe_policy
    twice_minus_one club_ops md_path header_legacy_2bytes = inr out →
  let off := if header_legacy_2bytes then 2%Z else 58%Z in
  read_qso out = Some 0%Z
  ∧ struct_unpack_H 6 (slice out off (off + 12))
    = inr [mode_code; is001; dupe_policy; band_code; contest_kind;
           twice_minus_one].
Proof.
  intros Hout off. apply create_blank_lg8_inv in Hout.
  destruct Hout as (tr & Htr & ->).
  split; [reflexivity|].
  destruct (pack_packable cp932 _ tr Htr) as (_ & Hun & _).
  cbn [blank_trailer ModeCurrent Is001Style DupePolicy FreqCurrent ContestKind
       TwiceMinusOne] in Hun.
  rewrite <- Hun. f_equal. unfold slice, off.
  destruct header_legacy_2bytes.
  - change (Z.to_nat (2 + 12 - 2)) with 12. change (Z.to_nat 2) with 2.
    reflexivity.
  - change (Z.to_nat (58 + 12 - 58)) with 12. change (Z.to_nat 58) with 58.
    rewrite (assoc_L (++)). rewrite drop_app_length'; [done|].
    rewrite length_app, bytes_mul_length. reflexivity.
Qed.

(** X5: in the bytes [create_blank_lg8] returns, the record count is 0
    and the six scalar arguments sit right after the header it wrote:
    at offset 2 for the 2-byte header and at offset 58 for the padded
    one (2 + 14 copies of the four-byte literal).  Decoding 12 bytes
    there gives mode, 001-style, dupe policy, band, contest kind and
    twice-minus-one as passed. *)
Theorem X5_create_blank_fields_after_header (cp932 : string → option (list byte))
    (mode_code band_code contest_kind is001 dupe_policy twice_minus_one : Z)
    (club_ops : option (list string)) (md_path : option string)
    (header_legacy_2bytes : bool) (out : list byte) :
  create_blank_lg8 cp932 mode_code band_code contest_kind is001 dupe_policy
    twice_minus_one club_ops md_path header_legacy_2bytes = inr out →
  let off := if header_legacy_2bytes then 2%Z else 58%Z in
  read_qso out = Some 0%Z
  ∧ struct_unpack_H 6 (slice out off (off + 12))
    = inr [mode_code; is001; dupe_policy; band_code; contest_kind;
           twice_minus_one].
Proof. apply create_blank_fields. Qed.

Lemma X5_create_blank_fields_after_header_witness :
  ∃ out, create_blank_lg8 cp932_ascii 3 2 1 0 0 0 None None true = inr out
         ∧ struct_unpack_H 6 (slice out 2 (2 + 12)) = inr [3; 0; 0; 2; 1; 0]%Z.
Proof.
  destruct (create_blank_lg8 cp932_ascii 3 2 1 0 0 0 None None true)
    as [e|out] eqn:Hout; [vm_compute in Hout; discriminate|].
  exists out. split; [reflexivity|].
  exact (proj2 (X5_create_blank_fields_after_header cp932_ascii 3 2 1 0 0 0
                  None None true out Hout)).
Defined.

(** X6: [inspect_lg8] returns a result exactly when the buffer has the
    two count bytes and at least [14 + 170 * qso] bytes in all; in every
    other case it fails with [struct.error], and never with another
    error.  The record count, mode, band and contest kind it returns are
    within 0..65535. *)
Theorem X6_inspect_returns_iff (b : list byte) :
  ((∃ r, inspect_lg8 b = inr r)
   ↔ ∃ qso, read_qso b = Some qso ∧ (14 + 170 * qso ≤ Z.of_nat (length b))%Z)
  ∧ (∀ e, inspect_lg8 b = inl e → e = StructError)
  ∧ (∀ r, inspect_lg8 b = inr r →
       read_qso b = Some (insp_qso r)
       ∧ u16 (insp_qso r) ∧ u16 (insp_mode r) ∧ u16 (insp_freq r)
       ∧ u16 (insp_kind r)).
Proof.
  pose proof (inspect_lg8_cases b) as Hc.
  destruct (read_qso b) as [qso|] eqn:Hq.
  - destruct (read_qso_range _ _ Hq) as [Hr _].
    case_decide as Hfit.
    + destruct Hc as (r & Hr' & <- & Hm & Hf & Hk & _).
      split; [split; [by eexists | by exists r]|].
      split; [intros e He; congruence|].
      intros r' Hr''. rewrite Hr' in Hr''. injection Hr'' as <-. done.
    + split; [split|split].
      * intros [r Hr']. congruence.
      * intros (qso' & [= <-] & Hfit'). lia.
      * intros e He. congruence.
      * intros r Hr'. congruence.
  - split; [split|split].
    + intros [r Hr]. congruence.
    + intros (qso & Hq' & _). discriminate.
    + intros e He. congruence.
    + intros r Hr. congruence.
Qed.

Lemma X6_inspect_returns_iff_witness :
  inspect_lg8 (replicate 13 Byte.x00) = inl StructError
  ∧ ∃ r, inspect_lg8 (replicate 14 Byte.x00) = inr r.
Proof.
  split.
  - destruct (inspect_lg8 (replicate 13 Byte.x00)) as [e|r] eqn:Hr.
    + f_equal. exact (proj1 (proj2 (X6_inspect_returns_iff _)) e Hr).
    + vm_compute in Hr. discriminate.
  - apply (proj1 (X6_inspect_returns_iff (replicate 14 Byte.x00))).
    exists 0%Z. split; [reflexivity | simpl; lia].
Defined.

(** X7: on a container in the extended layout (two count bytes, 14
    padding bytes of any content, [qso] records of 170 bytes, then a
    trailer that starts with six packed 16-bit fields) [inspect_lg8]
    returns the record count and the trailer's mode, band and contest
    kind, decoded at offset [16 + qso * 170]. *)
Theorem X7_inspect_extended_container
    (qso mode u1 u2 freq kind u3 : Z) (c pad recs lead rest : list byte) :
  pack_H qso = inr c →
  length pad = 14 →
  Z.of_nat (length recs) = (qso * 170)%Z →
  struct_pack_H 6 [mode; u1; u2; freq; kind; u3] = inr lead →
  inspect_lg8 (c ++ pad ++ recs ++ lead ++ rest)
  = inr {| insp_qso := qso;
           insp_mode := mode; insp_mode_label := mode_label mode;
           insp_freq := freq; insp_band_label := band_label freq;
           insp_kind := kind; insp_off := 16 + qso * 170 |}.
Proof.
  intros Hc Hpad Hrecs Hlead.
  pose proof (read_qso_pack_H _ _ (pad ++ recs ++ lead ++ rest) Hc) as Hq.
  pose proof (pack_H_length _ _ Hc) as Hcl.
  pose proof (struct_pack_H_length _ _ _ Hlead) as Hll.
  destruct (read_qso_range _ _ Hq) as [Hr _]. unfold u16 in Hr.
  rewrite (inspect_lg8_at _ qso Hq). cbv zeta.
  assert (Hoff : trailer_offset (length (c ++ pad ++ recs ++ lead ++ rest)) qso
                 = (16 + qso * 170)%Z).
  { rewrite trailer_offset_spec, !length_app. rewrite decide_False; lia. }
  rewrite Hoff.
  assert (Hslice : slice (c ++ pad ++ recs ++ lead ++ rest)
                     (16 + qso * 170) (16 + qso * 170 + 12) = lead).
  { unfold slice.
    replace (16 + qso * 170 + 12 - (16 + qso * 170))%Z with 12%Z by lia.
    change (Z.to_nat 12) with 12.
    rewrite !(assoc_L (++) _ _ (lead ++ rest)).
    rewrite drop_app_length'; [by apply take_app_length'|].
    rewrite !length_app. lia. }
  rewrite Hslice, (struct_unpack_pack_H _ _ _ Hlead). reflexivity.
Qed.

Lemma X7_inspect_extended_container_witness :
  inspect_lg8 ([Byte.x00; Byte.x00] ++ replicate 14 Byte.xff ++ []
               ++ [Byte.x03; Byte.x00; Byte.x00; Byte.x00; Byte.x00; Byte.x00;
                   Byte.x02; Byte.x00; Byte.x01; Byte.x00; Byte.x00; Byte.x00]
               ++ [])
  = inr {| insp_qso := 0;
           insp_mode := 3; insp_mode_label := mode_label 3;
           insp_freq := 2; insp_band_label := band_label 2;
           insp_kind := 1; insp_off := 16 + 0 * 170 |}.
Proof.
  apply (X7_inspect_extended_container 0 3 0 0 2 1 0); reflexivity.
Defined.

(** X8: on a container in the legacy layout (two count bytes, [qso]
    records of 170 bytes, then a packed trailer) [inspect_lg8] still
    decodes at offset [16 + qso * 170], 14 bytes into the trailer: what
    it returns as mode, band and contest kind are entries 1, 4 and 5 of
    the phone point table, not the trailer's scalar fields. *)
Theorem X8_inspect_legacy_container (cp932 : string → option (list byte))
    (t : Trailer) (qso : Z) (c recs tr : list byte) :
  pack_H qso = inr c →
  Z.of_nat (length recs) = (qso * 170)%Z →
  pack cp932 t = inr tr →
  ∃ r, inspect_lg8 (c ++ recs ++ tr) = inr r
       ∧ insp_qso r = qso
       ∧ insp_off r = (16 + qso * 170)%Z
       ∧ PointPhone t !! 1 = Some (insp_mode r)
       ∧ PointPhone t !! 4 = Some (insp_freq r)
       ∧ PointPhone t !! 5 = Some (insp_kind r).
Proof.
  intros Hc Hrecs Htr.
  pose proof (read_qso_pack_H _ _ (recs ++ tr) Hc) as Hq.
  pose proof (pack_H_length _ _ Hc) as Hcl.
  destruct (read_qso_range _ _ Hq) as [Hr _]. unfold u16 in Hr.
  destruct (pack_inv cp932 t tr Htr) as (h & pp & pc & rest & -> & Hh & Hpp & _).
  apply struct_pack_H_length in Hh.
  destruct (struct_pack_H_inr _ _ _ Hpp) as (Hn & _ & Hppl & Hun).
  unfold FREQNUM in Hn, Hppl.
  rewrite (inspect_lg8_at _ qso Hq). cbv zeta.
  assert (Hoff : trailer_offset
                   (length (c ++ recs ++ h ++ pp ++ pc ++ rest)) qso
                 = (16 + qso * 170)%Z).
  { rewrite trailer_offset_spec, !length_app. rewrite decide_False; lia. }
  rewrite Hoff.
  assert (Hslice : slice (c ++ recs ++ h ++ pp ++ pc ++ rest)
                     (16 + qso * 170) (16 + qso * 170 + 12)
                   = take 12 (drop 2 pp)).
  { unfold slice.
    replace (16 + qso * 170 + 12 - (16 + qso * 170))%Z with 12%Z by lia.
    change (Z.to_nat 12) with 12.
    replace (c ++ recs ++ h ++ pp ++ pc ++ rest)
      with (((c ++ recs) ++ h) ++ (pp ++ pc ++ rest))
      by (by rewrite <- !(assoc_L (++))).
    replace (Z.to_nat (16 + qso * 170)) with (length ((c ++ recs) ++ h) + 2)
      by (rewrite !length_app; lia).
    rewrite drop_app_add, drop_app_le by lia.
    apply take_app_le. rewrite length_drop. lia. }
  rewrite Hslice. unfold struct_unpack_H.
  rewrite decide_True by (rewrite length_take, length_drop; lia).
  cbn [mret result_ret].
  rewrite (unpack_Hs_take 6), unpack_Hs_drop2, Hun.
  destruct (PointPhone t) as [|p0 [|p1 [|p2 [|p3 [|p4 [|p5 [|p6 ps]]]]]]];
    try discriminate Hn.
  cbn [drop take]. eexists. split; [reflexivity|]. done.
Qed.

Lemma X8_inspect_legacy_container_witness :
  ∃ tr r, pack cp932_ascii (blank_trailer 3 2 7 0 0 0 None None) = inr tr
          ∧ inspect_lg8 ([Byte.x00; Byte.x00] ++ [] ++ tr) = inr r
          ∧ insp_mode r = 1%Z ∧ insp_kind r = 1%Z.
Proof.
  destruct (pack cp932_ascii (blank_trailer 3 2 7 0 0 0 None None))
    as [e|tr] eqn:Htr; [vm_compute in Htr; discriminate|].
  destruct (X8_inspect_legacy_container cp932_ascii _ 0 [Byte.x00; Byte.x00]
              [] tr eq_refl eq_refl Htr) as (r & Hr & _ & _ & Hm & _ & Hk).
  exists tr, r. split; [reflexivity|]. split; [exact Hr|].
  split; [by injection Hm | by injection Hk].
Defined.

(** ** Extras: code tables *)

Lemma dict_of_items_swap_None (items : list (Z * string)) (label : string) :
  label ∉ items.*2 →
  dict_of_items ((λ kv, (kv.2, kv.1)) <$> items) !! label = None.
Proof.
  intros Hl. apply dict_of_items_None.
  by rewrite <- list_fmap_compose.
Qed.

Lemma mode_codes_roundtrip (code : Z) :
  code ∈ MODE_TABLE_items.*1 → mode_code (mode_label code) = inr code.
Proof.
  intros Hin. apply list_elem_of_In in Hin. simpl in Hin.
  repeat (destruct Hin as [<- | Hin]; [vm_compute; reflexivity |]).
  destruct Hin.
Qed.

Lemma band_codes_roundtrip (code : Z) :
  code ∈ BAND_TABLE_items.*1 → band_code (band_label code) = inr code.
Proof.
  intros Hin. apply list_elem_of_In in Hin. simpl in Hin.
  repeat (destruct Hin as [<- | Hin]; [vm_compute; reflexivity |]).
  destruct Hin.
Qed.

Lemma get_label_not_hash (items : list (Z * string)) (code : Z) :
  Forall (λ label, ∀ s, label ≠ "#" +:+ s) items.*2 →
  code ∈ items.*1 → ∀ s, get_label (dict_of_items items) code ≠ "#" +:+ s.
Proof.
  intros Hall Hin s. unfold get_label.
  destruct (dict_of_items items !! code) as [label|] eqn:Hl.
  - simpl. assert (Hlab : label ∈ items.*2).
    { clear Hall Hin. unfold dict_of_items in Hl.
      assert (Hgen : ∀ d : gmap Z string,
                foldl (λ d kv, <[kv.1 := kv.2]> d) d items !! code = Some label →
                d !! code = Some label ∨ label ∈ items.*2).
      { clear Hl. induction items as [|[k v] items IH]; intros d Hd; simpl in *.
        - by left.
        - destruct (IH _ Hd) as [Hi|Hi].
          + destruct (decide (k = code)) as [->|Hne].
            * rewrite lookup_insert_eq in Hi. injection Hi as ->.
              right. apply list_elem_of_here.
            * rewrite lookup_insert_ne in Hi by done. by left.
          + right. by apply list_elem_of_further. }
      destruct (Hgen ∅ Hl) as [Hi|Hi]; [by rewrite lookup_empty in Hi | done]. }
    rewrite Forall_forall in Hall. by apply Hall.
  - unfold dict_of_items in Hl. apply foldl_insert_lookup_None in Hl.
    by destruct Hl.
Qed.

(** X9: the inverse tables undo the forward tables on every code of the
    enumeration ([TABLE_INV[TABLE[code]] == code]), and looking up a
    label that is not in the table raises [KeyError]. *)
Theorem X9_code_label_roundtrip :
  (∀ code, code ∈ MODE_TABLE_items.*1 → mode_code (mode_label code) = inr code)
  ∧ (∀ code, code ∈ BAND_TABLE_items.*1 → band_code (band_label code) = inr code)
  ∧ (∀ label, label ∉ MODE_TABLE_items.*2 → mode_code label = inl KeyError)
  ∧ (∀ label, label ∉ BAND_TABLE_items.*2 → band_code label = inl KeyError).
Proof.
  split; [exact mode_codes_roundtrip|]. split; [exact band_codes_roundtrip|].
  split; intros label Hl; unfold mode_code, band_code, get_code,
    MODE_TABLE_INV, BAND_TABLE_INV; by rewrite dict_of_items_swap_None.
Qed.

Lemma X9_code_label_roundtrip_witness :
  mode_code (mode_label 17) = inr 17%Z
  ∧ band_code (band_label 22) = inr 22%Z
  ∧ mode_code "LSB" = inl KeyError
  ∧ band_code "5MHz" = inl KeyError.
Proof.
  destruct X9_code_label_roundtrip as (Hm & Hb & Hmk & Hbk).
  split; [apply Hm; apply list_elem_of_In; simpl; tauto|].
  split; [apply Hb; apply list_elem_of_In; simpl; tauto|].
  split.
  - apply Hmk. intros Hin. apply list_elem_of_In in Hin. simpl in Hin.
    intuition discriminate.
  - apply Hbk. intros Hin. apply list_elem_of_In in Hin. simpl in Hin.
    intuition discriminate.
Defined.

Ltac no_hash_label :=
  repeat constructor; intros ? Heq; cbn [String.append] in Heq; discriminate Heq.

Lemma get_label_inj (items : list (Z * string)) (inv : string → result Z) :
  Forall (λ label, ∀ s, label ≠ "#" +:+ s) items.*2 →
  (∀ c, c ∈ items.*1 → inv (get_label (dict_of_items items) c) = inr c) →
  ∀ c1 c2, get_label (dict_of_items items) c1 = get_label (dict_of_items items) c2 →
           c1 = c2.
Proof.
  intros Hnh Hinv c1 c2 Heq.
  destruct (decide (c1 ∈ items.*1)) as [H1|H1],
           (decide (c2 ∈ items.*1)) as [H2|H2].
  - pose proof (Hinv c1 H1) as E1. pose proof (Hinv c2 H2) as E2.
    rewrite Heq in E1. congruence.
  - rewrite (get_label_outside items c2 H2) in Heq.
    by destruct (get_label_not_hash items c1 Hnh H1 (pretty c2)).
  - rewrite (get_label_outside items c1 H1) in Heq.
    by destruct (get_label_not_hash items c2 Hnh H2 (pretty c1)).
  - rewrite (get_label_outside items c1 H1), (get_label_outside items c2 H2) in Heq.
    apply (String.app_inj "#") in Heq. exact (pretty_Z_inj _ _ Heq).
Qed.

(** X10: the displayed labels are unambiguous: two different integer
    codes, inside or outside the enumeration, never get the same mode
    label, nor the same band label.  (No table label starts with [#],
    the table labels are pairwise different, and ["#<code>"] determines
    the code.) *)
Theorem X10_labels_injective :
  (∀ c1 c2, mode_label c1 = mode_label c2 → c1 = c2)
  ∧ (∀ c1 c2, band_label c1 = band_label c2 → c1 = c2).
Proof.
  split.
  - apply (get_label_inj MODE_TABLE_items mode_code).
    + cbn [fmap list_fmap MODE_TABLE_items snd]. no_hash_label.
    + exact mode_codes_roundtrip.
  - apply (get_label_inj BAND_TABLE_items band_code).
    + cbn [fmap list_fmap BAND_TABLE_items snd]. no_hash_label.
    + exact band_codes_roundtrip.
Qed.

Lemma X10_labels_injective_witness :
  mode_label 3 ≠ mode_label 12336 ∧ band_label 2 ≠ band_label (-2).
Proof.
  split; intros Heq.
  - apply (proj1 X10_labels_injective) in Heq. discriminate Heq.
  - apply (proj2 X10_labels_injective) in Heq. discriminate Heq.
Defined.

(** ** Extras: the sections of the store *)

Lemma grows_refl (cfg : RawConfigParser) : grows [] cfg cfg.
Proof. intros s. rewrite elem_of_nil. tauto. Qed.

Lemma grows_trans (C1 C2 : list string) (cfg1 cfg2 cfg3 : RawConfigParser) :
  grows C1 cfg1 cfg2 → grows C2 cfg2 cfg3 → grows (C1 ++ C2) cfg1 cfg3.
Proof. intros H1 H2 s. rewrite (H2 s), (H1 s), elem_of_app. tauto. Qed.

Lemma ensure_section_grows (section : string) (cfg cfg' : RawConfigParser) :
  ensure_section section cfg = inr cfg' → grows [section] cfg cfg'.
Proof.
  unfold ensure_section, has_section.
  destruct (decide (is_Some (cfg_sections cfg !! section))) as [Hhas|Hnot].
  - rewrite bool_decide_eq_true_2 by done. intros [= <-] s.
    rewrite list_elem_of_singleton. split; [tauto | by intros [?| ->]].
  - rewrite bool_decide_eq_false_2 by done. unfold add_section, has_section.
    case_decide; [discriminate|]. rewrite bool_decide_eq_false_2 by done.
    intros [= <-] s. simpl. rewrite list_elem_of_singleton.
    destruct (decide (section = s)) as [->|Hne].
    + rewrite lookup_insert_eq. split; [by right | by eexists].
    + rewrite lookup_insert_ne by done. split; [tauto | intros [?|?]; [done|]].
      congruence.
Qed.

Lemma cfg_set_grows (cfg cfg' : RawConfigParser) (section optname value : string) :
  cfg_set cfg section optname value = inr cfg' → grows [] cfg cfg'.
Proof.
  unfold cfg_set. case_decide.
  - intros [= <-] s. simpl. rewrite elem_of_nil. tauto.
  - destruct (cfg_sections cfg !! section) as [d|] eqn:Hd; [|discriminate].
    intros [= <-] s. simpl. rewrite elem_of_nil.
    destruct (decide (section = s)) as [<-|Hne].
    + rewrite lookup_insert_eq, Hd. split; [left|]; by eexists.
    + rewrite lookup_insert_ne by done. tauto.
Qed.

Lemma set_if_grows (x : option string) (section optname : string)
    (cfg cfg' : RawConfigParser) :
  set_if x section optname cfg = inr cfg' → grows [] cfg cfg'.
Proof.
  destruct x as [v|]; simpl; [apply cfg_set_grows|].
  intros [= <-]. apply grows_refl.
Qed.

Lemma set_urcnum_grows (items : list (string * option string)) :
  ∀ cfg cfg', set_urcnum items cfg = inr cfg' → grows [] cfg cfg'.
Proof.
  induction items as [|[band_label [n|]] items IH]; simpl; intros cfg cfg' H.
  - injection H as <-. apply grows_refl.
  - inv_bind H as cfg1 H1.
    apply (grows_trans [] [] cfg cfg1 cfg'); [by apply cfg_set_grows in H1 | eauto].
  - eauto.
Qed.

Lemma set_club_ops_grows (indices : list nat) (club_ops : list string) :
  ∀ cfg cfg', set_club_ops indices club_ops cfg = inr cfg' → grows [] cfg cfg'.
Proof.
  induction indices as [|i indices IH]; simpl; intros cfg cfg' H.
  - injection H as <-. apply grows_refl.
  - inv_bind H as cfg1 H1.
    apply (grows_trans [] [] cfg cfg1 cfg'); [by apply cfg_set_grows in H1 | eauto].
Qed.

Lemma write_UrCnum_grows (urcnum_map : list (string * option string))
    (cfg cfg' : RawConfigParser) :
  write_UrCnum urcnum_map cfg = inr cfg' → grows ["UrCnum"] cfg cfg'.
Proof.
  unfold write_UrCnum. intros H. inv_bind H as cfg1 H1.
  apply (grows_trans ["UrCnum"] [] cfg cfg1 cfg');
    [by apply ensure_section_grows | by apply set_urcnum_grows in H].
Qed.

Lemma write_CLUB_grows (club_ops : list string) (cfg cfg' : RawConfigParser) :
  write_CLUB club_ops cfg = inr cfg' → grows ["CLUB"] cfg cfg'.
Proof.
  unfold write_CLUB. intros H. inv_bind H as cfg1 H1.
  apply (grows_trans ["CLUB"] [] cfg cfg1 cfg');
    [by apply ensure_section_grows | by apply set_club_ops_grows in H].
Qed.

Lemma ensure_set_grows (section optname value : string)
    (cfg cfg' : RawConfigParser) :
  ensure_section section cfg ≫= (λ cfg, cfg_set cfg section optname value)
  = inr cfg' →
  grows [section] cfg cfg'.
Proof.
  intros H. inv_bind H as cfg1 H1.
  apply (grows_trans [section] [] cfg cfg1 cfg');
    [by apply ensure_section_grows | by apply cfg_set_grows in H].
Qed.

Lemma write_Partial_grows (partial_path : option string)
    (cfg cfg' : RawConfigParser) :
  write_Partial partial_path cfg = inr cfg' →
  grows (match nonempty partial_path with Some _ => ["Partial"] | None => [] end) cfg cfg'.
Proof.
  unfold write_Partial. destruct (nonempty partial_path) as [p|].
  - apply ensure_set_grows.
  - intros [= <-]. apply grows_refl.
Qed.

Lemma write_CloseFname_grows (open_log_fullpath : option string)
    (cfg cfg' : RawConfigParser) :
  write_CloseFname open_log_fullpath cfg = inr cfg' →
  grows (match nonempty open_log_fullpath with Some _ => ["CurrentData"] | None => [] end) cfg cfg'.
Proof.
  unfold write_CloseFname. destruct (nonempty open_log_fullpath) as [p|].
  - apply ensure_set_grows.
  - intros [= <-]. apply grows_refl.
Qed.

Lemma write_Contest_grows (user_md_path : option string)
    (cfg cfg' : RawConfigParser) :
  write_Contest user_md_path cfg = inr cfg' →
  grows (match nonempty user_md_path with Some _ => ["Contest"] | None => [] end) cfg cfg'.
Proof.
  unfold write_Contest. destruct (nonempty user_md_path) as [p|].
  - apply ensure_set_grows.
  - intros [= <-]. apply grows_refl.
Qed.

Lemma write_CW_grows (cw_cq : option string) (cw_wpm : option Z)
    (cfg cfg' : RawConfigParser) :
  write_CW cw_cq cw_wpm cfg = inr cfg' →
  grows (if bool_decide (is_Some (nonempty cw_cq))
            || bool_decide (is_Some (nonzero cw_wpm))
         then ["CW"] else []) cfg cfg'.
Proof.
  unfold write_CW.
  destruct (bool_decide (is_Some (nonempty cw_cq))
            || bool_decide (is_Some (nonzero cw_wpm))).
  - intros H. inv_bind H as cfg1 H1. inv_bind H as cfg2 H2.
    apply ensure_section_grows in H1. apply set_if_grows in H2, H.
    apply (grows_trans ["CW"] [] cfg cfg1 cfg'); [done|].
    by apply (grows_trans [] [] cfg1 cfg2 cfg').
  - intros [= <-]. apply grows_refl.
Qed.

Lemma write_startup_grows (startup_band_label startup_mode_label : option string)
    (cfg cfg' : RawConfigParser) :
  write_startup startup_band_label startup_mode_label cfg = inr cfg' →
  grows (if bool_decide (is_Some (nonempty startup_band_label))
            || bool_decide (is_Some (nonempty startup_mode_label))
         then ["CurrentData"; "Startup"] else []) cfg cfg'.
Proof.
  unfold write_startup.
  destruct (bool_decide (is_Some (nonempty startup_band_label))
            || bool_decide (is_Some (nonempty startup_mode_label))).
  - intros H. inv_bind H as cfg1 H1. inv_bind H as cfg2 H2.
    inv_bind H as cfg3 H3. inv_bind H as cfg4 H4. inv_bind H as cfg5 H5.
    apply ensure_section_grows in H1, H4.
    apply set_if_grows in H2, H3, H5, H.
    pose proof (grows_trans _ _ _ _ _ H1 H2) as G2.
    pose proof (grows_trans _ _ _ _ _ G2 H3) as G3.
    pose proof (grows_trans _ _ _ _ _ G3 H4) as G4.
    pose proof (grows_trans _ _ _ _ _ G4 H5) as G5.
    exact (grows_trans _ _ _ _ _ G5 H).
  - intros [= <-]. apply grows_refl.
Qed.

Lemma write_ini_grows (cfg cfg' : RawConfigParser)
    (urcnum_map : list (string * option string)) (club_ops : list string)
    (partial_path cw_cq : option string) (cw_wpm : option Z)
    (open_log_fullpath user_md_path startup_band_label startup_mode_label
       : option string) :
  write_ini cfg urcnum_map club_ops partial_path cw_cq cw_wpm
    open_log_fullpath user_md_path startup_band_label startup_mode_label
  = inr cfg' →
  grows (ensured_sections partial_path cw_cq cw_wpm open_log_fullpath
           user_md_path startup_band_label startup_mode_label) cfg cfg'.
Proof.
  unfold write_ini, ensured_sections. intros H.
  inv_bind H as cfg1 H1. inv_bind H as cfg2 H2. inv_bind H as cfg3 H3.
  inv_bind H as cfg4 H4. inv_bind H as cfg5 H5. inv_bind H as cfg6 H6.
  apply write_UrCnum_grows in H1. apply write_CLUB_grows in H2.
  apply write_Partial_grows in H3. apply write_CW_grows in H4.
  apply write_startup_grows in H5. apply write_CloseFname_grows in H6.
  apply write_Contest_grows in H.
  pose proof (grows_trans _ _ _ _ _ H6 H) as G6.
  pose proof (grows_trans _ _ _ _ _ H5 G6) as G5.
  pose proof (grows_trans _ _ _ _ _ H4 G5) as G4.
  pose proof (grows_trans _ _ _ _ _ H3 G4) as G3.
  pose proof (grows_trans _ _ _ _ _ H2 G3) as G2.
  exact (grows_trans _ _ _ _ _ H1 G2).
Qed.

Lemma store_eq_of_writes_grows (w : string → string → option string)
    (C : list string) (cfg1 cfg2 : RawConfigParser) :
  writes w cfg1 cfg2 → grows C cfg1 cfg2 →
  (∀ s, s ∈ C → is_Some (cfg_sections cfg1 !! s)) →
  (∀ s k v, w s k = Some v → lookup2 cfg1 s k = Some v) →
  cfg2 = cfg1.
Proof.
  intros (Hd & _ & Hl) Hg HC Hw.
  destruct cfg1 as [d1 s1], cfg2 as [d2 s2]. simpl in *. f_equal; [done|].
  apply map_eq. intros s.
  specialize (Hg s). simpl in Hg.
  destruct (s2 !! s) as [m2|] eqn:H2, (s1 !! s) as [m1|] eqn:H1.
  - f_equal. apply map_eq. intros k.
    specialize (Hl s k). unfold lookup2 in Hl. simpl in Hl.
    rewrite H2, H1 in Hl. simpl in Hl. rewrite Hl.
    destruct (w s k) as [v|] eqn:Hv; [|by rewrite option_union_None_l].
    specialize (Hw s k v Hv). unfold lookup2 in Hw. simpl in Hw.
    rewrite H1 in Hw. simpl in Hw. by rewrite Hw.
  - exfalso. destruct (proj1 Hg) as [[? ?]|Hin]; [by eexists | done |].
    specialize (HC s Hin). rewrite H1 in HC. by destruct HC.
  - exfalso. destruct (proj2 Hg) as [? ?]; [left; by eexists | done].
  - done.
Qed.

(** X11: after [write_ini] the store has exactly the sections it had
    plus the ones the call makes sure exist: [UrCnum] and [CLUB] on
    every call, [Partial], [CW], [CurrentData], [Startup] and [Contest]
    only when an argument of their block is present and non-empty.  An
    absent argument never creates a section, and no section is lost. *)
Theorem X11_write_ini_sections (cfg cfg' : RawConfigParser)
    (urcnum_map : list (string * option string)) (club_ops : list string)
    (partial_path cw_cq : option string) (cw_wpm : option Z)
    (open_log_fullpath user_md_path startup_band_label startup_mode_label
       : option string) :
  write_ini cfg urcnum_map club_ops partial_path cw_cq cw_wpm
    open_log_fullpath user_md_path startup_band_label startup_mode_label
  = inr cfg' →
  (∀ s, is_Some (cfg_sections cfg' !! s)
        ↔ is_Some (cfg_sections cfg !! s)
          ∨ s ∈ ensured_sections partial_path cw_cq cw_wpm open_log_fullpath
                  user_md_path startup_band_label startup_mode_label)
  ∧ is_Some (cfg_sections cfg' !! "UrCnum")
  ∧ is_Some (cfg_sections cfg' !! "CLUB").
Proof.
  intros H. apply write_ini_grows in H. split; [exact H|].
  split; apply H; right; unfold ensured_sections; set_solver.
Qed.

Lemma X11_write_ini_sections_witness :
  ∃ cfg', write_ini (mkCfg ∅ ∅) [] [] None None None None None None None
          = inr cfg'
          ∧ is_Some (cfg_sections cfg' !! "UrCnum")
          ∧ ¬ is_Some (cfg_sections cfg' !! "Partial").
Proof.
  destruct (write_ini_performs [] [] None None None None None None None
              (mkCfg ∅ ∅) (has_sections_nil _)) as (cfg' & Hcfg' & _).
  destruct (X11_write_ini_sections _ _ _ _ _ _ _ _ _ _ _ Hcfg') as (Hs & Hu & _).
  exists cfg'. split; [exact Hcfg'|]. split; [exact Hu|].
  intros Hp. apply Hs in Hp. destruct Hp as [Hp|Hp].
  - simpl in Hp. rewrite lookup_empty in Hp. by destruct Hp.
  - vm_compute in Hp. apply list_elem_of_In in Hp. simpl in Hp.
    intuition discriminate.
Defined.

(** X12: [write_ini] is idempotent on the store: running it again with
    the same arguments on the store it produced gives back that very
    store, so a repeated run changes nothing in the written file. *)
Theorem X12_write_ini_idempotent (cfg cfg' : RawConfigParser)
    (urcnum_map : list (string * option string)) (club_ops : list string)
    (partial_path cw_cq : option string) (cw_wpm : option Z)
    (open_log_fullpath user_md_path startup_band_label startup_mode_label
       : option string) :
  write_ini cfg urcnum_map club_ops partial_path cw_cq cw_wpm
    open_log_fullpath user_md_path startup_band_label startup_mode_label
  = inr cfg' →
  write_ini cfg' urcnum_map club_ops partial_path cw_cq cw_wpm
    open_log_fullpath user_md_path startup_band_label startup_mode_label
  = inr cfg'.
Proof.
  intros H1.
  pose proof (write_ini_grows _ _ _ _ _ _ _ _ _ _ _ H1) as G1.
  destruct (write_ini_performs urcnum_map club_ops partial_path cw_cq cw_wpm
              open_log_fullpath user_md_path startup_band_label
              startup_mode_label cfg (has_sections_nil cfg))
    as (cfg1 & Hcfg1 & W1).
  rewrite H1 in Hcfg1. injection Hcfg1 as <-.
  destruct (write_ini_performs urcnum_map club_ops partial_path cw_cq cw_wpm
              open_log_fullpath user_md_path startup_band_label
              startup_mode_label cfg' (has_sections_nil cfg'))
    as (cfg2 & Hcfg2 & W2).
  pose proof (write_ini_grows _ _ _ _ _ _ _ _ _ _ _ Hcfg2) as G2.
  rewrite Hcfg2. f_equal.
  apply (store_eq_of_writes_grows _ _ _ _ W2 G2).
  - intros s Hs. apply G1. by right.
  - intros s k v Hv. destruct W1 as (_ & _ & Hl). rewrite Hl, Hv.
    apply union_Some_l.
Qed.

Lemma X12_write_ini_idempotent_witness :
  ∃ cfg', write_ini example_store [("7MHz", Some "30")] ["JA1BBB"]
            (Some "p.pck") None (Some 22%Z) None None (Some "7MHz") None
          = inr cfg'
          ∧ write_ini cfg' [("7MHz", Some "30")] ["JA1BBB"]
              (Some "p.pck") None (Some 22%Z) None None (Some "7MHz") None
            = inr cfg'.
Proof.
  destruct (write_ini_performs [("7MHz", Some "30")] ["JA1BBB"]
              (Some "p.pck") None (Some 22%Z) None None (Some "7MHz") None
              example_store (has_sections_nil _)) as (cfg' & Hcfg' & _).
  exists cfg'. split; [exact Hcfg'|].
  exact (X12_write_ini_idempotent _ _ _ _ _ _ _ _ _ _ _ Hcfg').
Defined.

(** X13: [apply_ops_to_ini] touches the roster only: it always
    succeeds, leaves the [DEFAULT] options and every value outside
    [CLUB]/[OP1] .. [OP30] as they were (other keys of [CLUB] included),
    and adds no section other than [CLUB]. *)
Theorem X13_apply_ops_frame (cfg : RawConfigParser) (club_ops : list string) :
  ∃ cfg', apply_ops_to_ini cfg club_ops = inr cfg'
    ∧ cfg_defaults cfg' = cfg_defaults cfg
    ∧ (∀ s k, s ≠ "CLUB" ∨ k ∉ op_key <$> seq 1 30 →
              lookup2 cfg' s k = lookup2 cfg s k)
    ∧ (∀ s, is_Some (cfg_sections cfg' !! s)
            ↔ is_Some (cfg_sections cfg !! s) ∨ s = "CLUB").
Proof.
  destruct (write_CLUB_performs club_ops [] cfg (has_sections_nil cfg))
    as (cfg' & Hcfg' & Hd & _ & Hl).
  exists cfg'. split; [exact Hcfg'|]. split; [exact Hd|]. split.
  - intros s k Hsk. rewrite Hl.
    destruct (club_target (seq 1 30) club_ops s k) as [v|] eqn:Hv;
      [|by rewrite option_union_None_l].
    apply club_target_Some in Hv. destruct Hv as (-> & i & Hi & -> & _).
    destruct Hsk as [Hs|Hk]; [done|].
    destruct Hk. by apply list_elem_of_fmap_2.
  - intros s. rewrite (write_CLUB_grows _ _ _ Hcfg' s).
    by rewrite list_elem_of_singleton.
Qed.

(** X14: the roster shortcut composes with the full merge: on the store
    [write_ini] produced, [apply_ops_to_ini] with the same roster
    changes nothing, and [apply_ops_to_ini] applied twice is the same as
    applied once. *)
Theorem X14_apply_ops_absorbed (cfg cfg' : RawConfigParser)
    (urcnum_map : list (string * option string)) (club_ops : list string)
    (partial_path cw_cq : option string) (cw_wpm : option Z)
    (open_log_fullpath user_md_path startup_band_label startup_mode_label
       : option string) :
  (write_ini cfg urcnum_map club_ops partial_path cw_cq cw_wpm
     open_log_fullpath user_md_path startup_band_label startup_mode_label
   = inr cfg' →
   apply_ops_to_ini cfg' club_ops = inr cfg')
  ∧ (apply_ops_to_ini cfg club_ops = inr cfg' →
     apply_ops_to_ini cfg' club_ops = inr cfg').
Proof.
  assert (Hgen : ∀ w C,
            writes w cfg cfg' → grows C cfg cfg' → "CLUB" ∈ C →
            (∀ i, 1 ≤ i ≤ 30 → w "CLUB" (op_key i) = Some (op_val club_ops i)) →
            apply_ops_to_ini cfg' club_ops = inr cfg').
  { intros w C W G HC Hw.
    destruct (write_CLUB_performs club_ops [] cfg' (has_sections_nil cfg'))
      as (cfg2 & Hcfg2 & W2).
    unfold apply_ops_to_ini. rewrite Hcfg2. f_equal.
    apply (store_eq_of_writes_grows _ _ _ _ W2 (write_CLUB_grows _ _ _ Hcfg2)).
    - intros s ->%list_elem_of_singleton. apply G. by right.
    - intros s k v Hv. apply club_target_Some in Hv.
      destruct Hv as (-> & i & Hi & -> & ->). apply elem_of_seq in Hi.
      destruct W as (_ & _ & Hl). rewrite Hl, Hw by lia. apply union_Some_l. }
  split; intros H.
  - destruct (write_ini_performs urcnum_map club_ops partial_path cw_cq cw_wpm
                open_log_fullpath user_md_path startup_band_label
                startup_mode_label cfg (has_sections_nil cfg))
      as (cfg1 & Hcfg1 & W1).
    rewrite H in Hcfg1. injection Hcfg1 as <-.
    apply (Hgen _ _ W1 (write_ini_grows _ _ _ _ _ _ _ _ _ _ _ H)).
    + unfold ensured_sections. set_solver.
    + intros i Hi. by apply write_ini_target_club.
  - destruct (write_CLUB_performs club_ops [] cfg (has_sections_nil cfg))
      as (cfg1 & Hcfg1 & W1).
    unfold apply_ops_to_ini in H. rewrite H in Hcfg1. injection Hcfg1 as <-.
    apply (Hgen _ _ W1 (write_CLUB_grows _ _ _ H)).
    + apply list_elem_of_here.
    + intros i Hi. apply club_target_op_key, elem_of_seq. lia.
Qed.

Lemma X14_apply_ops_absorbed_witness :
  ∃ cfg', apply_ops_to_ini example_store ["JA1BBB"; "JA1CCC"] = inr cfg'
          ∧ apply_ops_to_ini cfg' ["JA1BBB"; "JA1CCC"] = inr cfg'.
Proof.
  destruct (write_CLUB_performs ["JA1BBB"; "JA1CCC"] [] example_store
              (has_sections_nil _)) as (cfg' & Hcfg' & _).
  exists cfg'. split; [exact Hcfg'|].
  exact (proj2 (X14_apply_ops_absorbed example_store cfg' [] ["JA1BBB"; "JA1CCC"]
                  None None None None None None None) Hcfg').
Defined.

(** ** Extras: the GUI callbacks *)

Lemma or_None_Some (x v : string) : or_None x = Some v → v = x ∧ x ≠ "".
Proof. destruct x; [discriminate|]. by intros [= <-]. Qed.

Lemma nonempty_Some (x : option string) (v : string) :
  nonempty x = Some v → x = Some v ∧ v ≠ "".
Proof. destruct x as [[|c s]|]; try discriminate. by intros [= <-]. Qed.

Lemma nonempty_or_None (x : string) : nonempty (or_None x) = or_None x.
Proof. by destruct x. Qed.

Lemma pretty_N_go_nonempty (x : N) (s : string) :
  s ≠ "" → pretty_N_go x s ≠ "".
Proof.
  revert s. induction (N.lt_wf_0 x) as [x _ IH]; intros s Hs.
  assert (x = 0 ∨ 0 < x)%N as [->|Hx] by lia.
  - by rewrite pretty_N_go_0.
  - rewrite pretty_N_go_step by done. apply IH; [by apply N.div_lt | done].
Qed.

Lemma pretty_N_nonempty (x : N) : pretty x ≠ "".
Proof.
  unfold pretty, pretty_N. case_decide; [done|].
  rewrite pretty_N_go_step by lia. by apply pretty_N_go_nonempty.
Qed.

Lemma pretty_Z_nonempty (x : Z) : pretty x ≠ "".
Proof.
  destruct x as [|p|p]; [done | apply pretty_N_nonempty | done].
Qed.

Lemma urcnum_target_NoDup (items : list (string * option string))
    (label : string) (x : option string) :
  NoDup items.*1 → (label, x) ∈ items →
  urcnum_target items "UrCnum" label = x.
Proof.
  induction items as [|[l0 x0] items IH]; intros Hnd Hin.
  - by apply elem_of_nil in Hin.
  - apply NoDup_cons in Hnd. destruct Hnd as [Hl0 Hnd]. simpl.
    apply elem_of_cons in Hin. destruct Hin as [[= -> ->]|Hin].
    + rewrite target_one_eq.
      destruct (urcnum_target items "UrCnum" l0) as [v|] eqn:Hv;
        [|apply option_union_None_l].
      apply urcnum_target_Some in Hv. destruct Hv as [_ Hv].
      destruct Hl0. by apply (list_elem_of_fmap_2 fst) in Hv.
    + rewrite target_one_ne_option.
      * rewrite option_union_None_r. by apply IH.
      * intros ->. destruct Hl0. by apply (list_elem_of_fmap_2 fst) in Hin.
Qed.

Lemma write_ini_target_urcnum
    (urcnum_map : list (string * option string)) (club_ops : list string)
    (partial_path cw_cq : option string) (cw_wpm : option Z)
    (open_log_fullpath user_md_path startup_band_label startup_mode_label
       : option string) (k : string) :
  write_ini_target urcnum_map club_ops partial_path cw_cq cw_wpm
    open_log_fullpath user_md_path startup_band_label startup_mode_label
    "UrCnum" k = urcnum_target urcnum_map "UrCnum" k.
Proof.
  unfold write_ini_target, startup_target, cw_target.
  rewrite !target_one_ne_section by discriminate.
  rewrite club_target_ne_section by discriminate.
  by rewrite !option_union_None_l.
Qed.

Lemma band_labels_NoDup : NoDup BAND_TABLE_items.*2.
Proof.
  apply (bool_decide_unpack (NoDup BAND_TABLE_items.*2)). vm_compute. exact I.
Qed.

Lemma write_ini_no_empty_target
    (urcnum_map : list (string * option string)) (club_ops : list string)
    (partial_path cw_cq : option string) (cw_wpm : option Z)
    (open_log_fullpath user_md_path startup_band_label startup_mode_label
       : option string) (s k : string) :
  (∀ l, (l, Some "") ∉ urcnum_map) → s ≠ "CLUB" →
  write_ini_target urcnum_map club_ops partial_path cw_cq cw_wpm
    open_log_fullpath user_md_path startup_band_label startup_mode_label s k
  ≠ Some "".
Proof.
  intros Hur Hs Ht.
  destruct (target_Some_inv _ _ _ _ _ _ _ _ _ _ _ _ Ht) as [[_ Hin]|[[-> _]|Hin]].
  - by apply Hur in Hin.
  - done.
  - unfold single_keys in Hin. rewrite !elem_of_cons, elem_of_nil in Hin.
    destruct Hin as [Hk|[Hk|[Hk|[Hk|[Hk|[Hk|[Hk|[Hk|[Hk|[]]]]]]]]]];
      injection Hk as -> ->.
    + rewrite target_Partial in Ht. by apply nonempty_Some in Ht as [_ ?].
    + rewrite target_CW_CQ in Ht. by apply nonempty_Some in Ht as [_ ?].
    + rewrite target_CW_WPM in Ht.
      destruct (nonzero cw_wpm) as [n|]; [|discriminate].
      injection Ht as Ht. by apply pretty_Z_nonempty in Ht.
    + rewrite target_BandLabel in Ht. by apply nonempty_Some in Ht as [_ ?].
    + rewrite target_ModeLabel in Ht. by apply nonempty_Some in Ht as [_ ?].
    + rewrite target_Startup_Band in Ht. by apply nonempty_Some in Ht as [_ ?].
    + rewrite target_Startup_Mode in Ht. by apply nonempty_Some in Ht as [_ ?].
    + rewrite target_CloseFname in Ht. by apply nonempty_Some in Ht as [_ ?].
    + rewrite target_Contest in Ht. by apply nonempty_Some in Ht as [_ ?].
Qed.

Section CallbackFacts.
Variable strip : string → string.
Variable splitlines : string → list string.
Variable isdigit : string → bool.
Variable int_of_str : string → option Z.
Variable lower : string → string.

Lemma write_ini_clicked_inr (w : Widgets) (askyesno : bool)
    (cfg cfg' : RawConfigParser) :
  write_ini_clicked strip splitlines isdigit int_of_str lower w askyesno cfg
  = Some (inr cfg') →
  ∃ cw_wpm,
    write_ini cfg
      ((λ label, (label, or_None (strip (urcnum_vars w label))))
         <$> BAND_TABLE_items.*2)
      (roster_of_text strip splitlines (txt_ops w))
      (or_None (strip (var_partial w))) (or_None (strip (var_cw_cq w)))
      cw_wpm
      (or_None (strip (var_open_log w))) (or_None (strip (var_user_md w)))
      (if var_apply_startup w then Some (var_band_label w) else None)
      (if var_apply_startup w then Some (var_mode_label w) else None)
    = inr cfg'.
Proof.
  unfold write_ini_clicked.
  destruct (if isdigit (strip (var_cw_wpm w)) then _ else _) as [e|cw_wpm];
    [discriminate|].
  destruct (_ && negb askyesno); [discriminate|].
  intros [= H]. by exists cw_wpm.
Qed.

End CallbackFacts.

Lemma fmap_fst_pair {A B : Type} (f : A → B) (l : list A) :
  ((λ x, (x, f x)) <$> l).*1 = l.
Proof. induction l as [|x l IH]; [done|]. rewrite !fmap_cons, IH. reflexivity. Qed.

Ltac outcome_solver :=
  repeat split; unfold not; intros;
  repeat match goal with
         | H : _ ∧ _ |- _ => destruct H
         | H : ∃ _, _ |- _ => destruct H
         end;
  try discriminate; try congruence; try tauto; eauto.

Section CallbackExtras.
Variable strip : string → string.
Variable splitlines : string → list string.
Variable isdigit : string → bool.
Variable int_of_str : string → option Z.
Variable lower : string → string.
Variable parse_md_metadata : string → result MdMeta.
Variable sanitize_key : string → string.

(** X15: what the "write to .ini" button does to the stored values.
    For each band of the table, the stored default number becomes the
    stripped text of that band's entry when the text is not blank and is
    left as it was when it is blank; and outside the [CLUB] roster no
    key is ever set to the empty string by this path: a key that holds
    the empty string afterwards held it before. *)
Theorem X15_write_ini_clicked_upserts (w : Widgets) (askyesno : bool)
    (cfg cfg' : RawConfigParser) :
  write_ini_clicked strip splitlines isdigit int_of_str lower w askyesno cfg
  = Some (inr cfg') →
  (∀ label, label ∈ BAND_TABLE_items.*2 →
     lookup2 cfg' "UrCnum" label
     = match or_None (strip (urcnum_vars w label)) with
       | Some v => Some v
       | None => lookup2 cfg "UrCnum" label
       end)
  ∧ (∀ s k, s ≠ "CLUB" → lookup2 cfg' s k = Some "" → lookup2 cfg s k = Some "").
Proof.
  intros H. apply write_ini_clicked_inr in H. destruct H as (cw_wpm & H).
  set (urcnum_map := (λ label, (label, or_None (strip (urcnum_vars w label))))
                       <$> BAND_TABLE_items.*2) in H.
  match type of H with
  | write_ini cfg _ ?ops ?pp ?cq _ ?ol ?um ?sb ?sm = _ =>
      destruct (write_ini_performs urcnum_map ops pp cq cw_wpm ol um sb sm cfg
                  (has_sections_nil cfg)) as (cfg1 & Hcfg1 & _ & _ & Hl)
  end.
  rewrite H in Hcfg1. injection Hcfg1 as <-.
  split.
  - intros label Hlabel. rewrite Hl, write_ini_target_urcnum.
    rewrite (urcnum_target_NoDup urcnum_map label
               (or_None (strip (urcnum_vars w label)))).
    + by destruct (or_None (strip (urcnum_vars w label))),
                  (lookup2 cfg "UrCnum" label).
    + unfold urcnum_map. rewrite fmap_fst_pair. exact band_labels_NoDup.
    + unfold urcnum_map.
      by apply (list_elem_of_fmap_2
                  (λ label, (label, or_None (strip (urcnum_vars w label))))).
  - intros s k Hs Hk. rewrite Hl in Hk.
    match type of Hk with
    | ?t ∪ _ = _ => destruct t as [v|] eqn:Ht
    end.
    + rewrite union_Some_l in Hk. injection Hk as ->.
      exfalso. revert Ht. apply write_ini_no_empty_target; [|done].
      intros l Hin. unfold urcnum_map in Hin.
      apply list_elem_of_fmap in Hin. destruct Hin as (l' & [= -> Hn] & _).
      symmetry in Hn. by apply or_None_Some in Hn as [? ?].
    + by rewrite option_union_None_l in Hk.
Qed.

(** X16: the outcomes of the "write to .ini" button.  Its only error is
    the [ValueError] of [int] on a WPM text that passes [isdigit]; it
    gives up without writing exactly when the WPM text is fine, the
    partial path starts (lower-cased) with [e:\\] or [f:\\] and the
    user answers no; in every other case it writes a store. *)
Theorem X16_write_ini_clicked_outcomes (w : Widgets) (askyesno : bool)
    (cfg : RawConfigParser) :
  let wpm := strip (var_cw_wpm w) in
  let wpm_fails := isdigit wpm = true ∧ int_of_str wpm = None in
  let removable :=
    ∃ p, or_None (strip (var_partial w)) = Some p
         ∧ (String.prefix "e:\\" (lower p) = true
            ∨ String.prefix "f:\\" (lower p) = true) in
  let outcome :=
    write_ini_clicked strip splitlines isdigit int_of_str lower w askyesno cfg in
  (∀ e, outcome = Some (inl e) ↔ e = ValueError ∧ wpm_fails)
  ∧ (outcome = None ↔ ¬ wpm_fails ∧ removable ∧ askyesno = false)
  ∧ ((∃ cfg', outcome = Some (inr cfg'))
     ↔ ¬ wpm_fails ∧ ¬ (removable ∧ askyesno = false)).
Proof.
  intros wpm wpm_fails removable outcome.
  unfold outcome, write_ini_clicked. fold wpm.
  set (rem_b := match or_None (strip (var_partial w)) with
                | Some p => String.prefix "e:\\" (lower p)
                            || String.prefix "f:\\" (lower p)
                | None => false
                end).
  assert (Hrem : rem_b = true ↔ removable).
  { unfold rem_b, removable.
    destruct (or_None (strip (var_partial w))) as [p|].
    - rewrite orb_true_iff. split.
      + intros Hp. by exists p.
      + by intros (p' & [= <-] & Hp).
    - split; [discriminate | by intros (p & Hp & _)]. }
  clearbody rem_b.
  match goal with
  | |- context [write_ini cfg ?m ?ops ?pp ?cq _ ?ol ?um ?sb ?sm] =>
      pose proof (λ cw, write_ini_performs m ops pp cq cw ol um sb sm cfg
                          (has_sections_nil cfg)) as Hok
  end.
  assert (Hr : (rem_b = true ∧ removable) ∨ (rem_b = false ∧ ¬ removable)).
  { destruct rem_b; [left | right]; (split; [done|]); [tauto|].
    intros Hx. apply Hrem in Hx. discriminate. }
  clear Hrem. unfold wpm_fails.
  destruct (isdigit wpm); [destruct (int_of_str wpm) as [n|]|].
  - specialize (Hok (Some n)). destruct Hok as (cfg' & Hcfg' & _).
    cbn [mret result_ret]. rewrite Hcfg'.
    destruct Hr as [[-> Hr]| [-> Hr]], askyesno; cbn [andb negb]; outcome_solver.
  - cbn [raise]. outcome_solver.
  - specialize (Hok None). destruct Hok as (cfg' & Hcfg' & _).
    cbn [mret result_ret]. rewrite Hcfg'.
    destruct Hr as [[-> Hr]| [-> Hr]], askyesno; cbn [andb negb]; outcome_solver.
Qed.

End CallbackExtras.

Lemma get_code_label (items : list (Z * string)) (label : string) (c : Z) :
  (∀ l, l ∈ items.*2 →
     ∃ c', get_code (dict_of_items ((λ kv, (kv.2, kv.1)) <$> items)) l = inr c'
           ∧ get_label (dict_of_items items) c' = l) →
  get_code (dict_of_items ((λ kv, (kv.2, kv.1)) <$> items)) label = inr c →
  get_label (dict_of_items items) c = label.
Proof.
  intros Hrt Hc. destruct (decide (label ∈ items.*2)) as [Hin|Hout].
  - destruct (Hrt label Hin) as (c' & Hc' & Hl). congruence.
  - unfold get_code in Hc. by rewrite dict_of_items_swap_None in Hc.
Qed.

Lemma mode_code_label (label : string) (c : Z) :
  mode_code label = inr c → mode_label c = label.
Proof. apply (get_code_label MODE_TABLE_items), mode_labels_roundtrip. Qed.

Lemma band_code_label (label : string) (c : Z) :
  band_code label = inr c → band_label c = label.
Proof. apply (get_code_label BAND_TABLE_items), band_labels_roundtrip. Qed.

Section DictLookup.
Context `{Countable K} {V : Type}.

Lemma foldl_insert_lookup_notin (items : list (K * V)) (d : gmap K V) (k : K) :
  k ∉ items.*1 →
  foldl (λ d kv, <[kv.1 := kv.2]> d) d items !! k = d !! k.
Proof.
  revert d; induction items as [|[k' v'] items IH]; intros d Hk; [done|].
  simpl in *. apply not_elem_of_cons in Hk as [Hne Hk].
  rewrite IH by done. by apply lookup_insert_ne.
Qed.

Lemma dict_of_items_lookup (items : list (K * V)) (k : K) (v : V) :
  NoDup items.*1 → (k, v) ∈ items → dict_of_items items !! k = Some v.
Proof.
  unfold dict_of_items. generalize (∅ : gmap K V).
  induction items as [|[k' v'] items IH]; intros d Hnd Hin.
  - by apply elem_of_nil in Hin.
  - simpl in *. apply NoDup_cons in Hnd as [Hk' Hnd].
    apply elem_of_cons in Hin as [Heq|Hin].
    + injection Heq as -> ->.
      rewrite foldl_insert_lookup_notin by done. apply lookup_insert_eq.
    + by apply IH.
Qed.
End DictLookup.

Lemma CONTEST_TABLE_lookup (sel key : string) (kind : option Z) :
  (sel, (key, kind)) ∈ CONTEST_TABLE_items →
  CONTEST_TABLE !! sel = Some (key, kind).
Proof.
  apply dict_of_items_lookup.
  apply (bool_decide_unpack (NoDup CONTEST_TABLE_items.*1)).
  vm_compute; reflexivity.
Qed.

Section ContestExtras.
Variable strip : string → string.
Variable splitlines : string → list string.
Variable isdigit : string → bool.
Variable int_of_str : string → option Z.
Variable parse_md_metadata : string → result MdMeta.
Variable sanitize_key : string → string.
Variable cp932 : string → option (list byte).

Lemma default_or_None_nonempty (x : string) : default "custom" (or_None x) ≠ "".
Proof. by destruct x. Qed.

(** X17: [_resolve_contest].  The key it returns for the file name is
    never empty (it falls back to the cleaned-up contest name and then
    to ["custom"]), and the path it returns is the stripped .md entry.
    It raises either what reading the metadata of a given .md file
    raises, or [ValueError] for the "other (by number)" choice when the
    kind entry is not a number; nothing else.  With no .md file, a
    contest that has a key and a kind in the table resolves to exactly
    that key and kind. *)
Theorem X17_resolve_contest (w : Widgets) :
  let call := resolve_contest strip isdigit int_of_str parse_md_metadata
                sanitize_key w in
  let kind_str := strip (var_contest_kind w) in
  (∀ key kind md_path, call = inr (key, kind, md_path) →
     key ≠ "" ∧ md_path = or_None (strip (var_md_path w)))
  ∧ (∀ e, call = inl e →
       (∃ p, or_None (strip (var_md_path w)) = Some p
             ∧ parse_md_metadata p = inl e)
       ∨ (e = ValueError
          ∧ var_contest_name w = "その他（番号指定）"
          ∧ (isdigit kind_str = false ∨ int_of_str kind_str = None)))
  ∧ (∀ key kind,
       (var_contest_name w, (key, Some kind)) ∈ CONTEST_TABLE_items →
       strip (var_md_path w) = "" →
       call = inr (key, kind, None)).
Proof.
  intros call kind_str. unfold call, resolve_contest. fold kind_str.
  split; [|split].
  - intros key kind md_path H. inv_bind H as md_meta Hmeta.
    inv_bind H as kk Hkk.
    injection H as <- _ <-. split; [|done].
    destruct (kk.1); [apply default_or_None_nonempty | done].
  - intros e H.
    destruct (or_None (strip (var_md_path w))) as [p|].
    + destruct (parse_md_metadata p) as [e'|md_meta] eqn:Hmeta.
      * injection H as <-. left. by exists p.
      * right. cbn [mbind result_bind] in H.
        case_decide as Hsel; [|discriminate H].
        destruct (isdigit kind_str); [destruct (int_of_str kind_str)|].
        -- discriminate H.
        -- injection H as <-. auto.
        -- injection H as <-. auto.
    + right. cbn [mbind result_bind mret result_ret] in H.
      case_decide as Hsel; [|discriminate H].
      destruct (isdigit kind_str); [destruct (int_of_str kind_str)|].
      * discriminate H.
      * injection H as <-. auto.
      * injection H as <-. auto.
  - intros key kind Hin Hmd.
    rewrite Hmd, (CONTEST_TABLE_lookup _ _ _ Hin).
    apply list_elem_of_In in Hin. cbn [In CONTEST_TABLE_items] in Hin.
    do 6 (destruct Hin as [Heq|Hin];
          [injection Heq as Hs <- <-; rewrite <- Hs;
           cbn [or_None mbind result_bind mret result_ret];
           case_decide; [discriminate | reflexivity]|]).
    do 3 (destruct Hin as [Heq|Hin]; [discriminate Heq|]).
    destruct Hin.
Qed.

(** X18: the "create .lg8" button.  It creates nothing when the year is
    blank.  When it writes a file, the name is
    [<year>_<key>_<band label>.lg8] with the resolved key, the file
    always has the 2-byte header with record count 0, and the six
    fields at offset 2 are the code of the selected mode label, 0, 0,
    the code of the selected band label, the resolved contest kind
    and 0. *)
Theorem X18_create_lg8 (w : Widgets) (this_year : string) :
  let year := if var_year_auto w then this_year else strip (var_year w) in
  let call := create_lg8 strip splitlines isdigit int_of_str parse_md_metadata
                sanitize_key cp932 w this_year in
  (call = None ↔ year = "")
  ∧ (∀ name out, call = Some (inr (name, out)) →
       ∃ key kind md_path mode band,
         resolve_contest strip isdigit int_of_str parse_md_metadata
           sanitize_key w = inr (key, kind, md_path)
         ∧ name = build_filename year key (var_band_label w)
         ∧ mode_label mode = var_mode_label w
         ∧ band_label band = var_band_label w
         ∧ read_qso out = Some 0%Z
         ∧ struct_unpack_H 6 (slice out 2 (2 + 12))
           = inr [mode; 0; 0; band; kind; 0]%Z).
Proof.
  intros year call. unfold call, create_lg8. fold year.
  destruct year as [|c y] eqn:Hyear.
  - split; [done|]. intros name out H. discriminate H.
  - split; [split; discriminate|].
    intros name out H. apply (inj Some) in H.
    inv_bind H as r Hr. destruct r as [[key kind] md_path].
    inv_bind H as band Hband. inv_bind H as mode Hmode.
    inv_bind H as data Hdata. injection H as <- <-.
    exists key, kind, md_path, mode, band.
    split; [exact Hr|]. split; [reflexivity|].
    split; [by apply mode_code_label|]. split; [by apply band_code_label|].
    exact (create_blank_fields cp932 _ _ _ _ _ _ _ _ true data Hdata).
Qed.

End ContestExtras.


(** ** Examples for the callbacks *)

Lemma write_ini_clicked_no_wpm (strip : string → string)
    (splitlines : string → list string) (isdigit : string → bool)
    (int_of_str : string → option Z) (lower : string → string)
    (w : Widgets) (askyesno : bool) (cfg : RawConfigParser) :
  isdigit (strip (var_cw_wpm w)) = false →
  or_None (strip (var_partial w)) = None →
  write_ini_clicked strip splitlines isdigit int_of_str lower w askyesno cfg
  = Some (write_ini cfg
            ((λ label, (label, or_None (strip (urcnum_vars w label))))
               <$> BAND_TABLE_items.*2)
            (roster_of_text strip splitlines (txt_ops w))
            None (or_None (strip (var_cw_cq w))) None
            (or_None (strip (var_open_log w))) (or_None (strip (var_user_md w)))
            (if var_apply_startup w then Some (var_band_label w) else None)
            (if var_apply_startup w then Some (var_mode_label w) else None)).
Proof.
  intros Hd Hp. unfold write_ini_clicked. rewrite Hd, Hp. reflexivity.
Qed.

Lemma X15_write_ini_clicked_upserts_witness :
  ∃ cfg',
    write_ini_clicked id (λ s, [s]) (λ _, false) (λ _, None) id
      example_widgets true example_store = Some (inr cfg')
    ∧ lookup2 cfg' "UrCnum" "7MHz" = Some "25"
    ∧ lookup2 cfg' "UrCnum" "14MHz" = lookup2 example_store "UrCnum" "14MHz".
Proof.
  pose proof (write_ini_clicked_no_wpm id (λ s, [s]) (λ _, false) (λ _, None)
                id example_widgets true example_store eq_refl eq_refl) as Hc.
  match type of Hc with
  | _ = Some (write_ini ?c ?m ?ops ?pp ?cq ?wpm ?ol ?um ?sb ?sm) =>
      destruct (write_ini_performs m ops pp cq wpm ol um sb sm c
                  (has_sections_nil c)) as (cfg' & Hcfg' & _)
  end.
  rewrite Hcfg' in Hc. exists cfg'. split; [exact Hc|].
  destruct (X15_write_ini_clicked_upserts id (λ s, [s]) (λ _, false)
              (λ _, None) id example_widgets true example_store cfg' Hc)
    as [Hu _].
  split.
  - rewrite (Hu "7MHz"); [reflexivity|].
    apply list_elem_of_In. cbn. tauto.
  - rewrite (Hu "14MHz"); [reflexivity|].
    apply list_elem_of_In. cbn. tauto.
Defined.

Lemma X17_resolve_contest_witness :
  resolve_contest id (λ _, false) (λ _, None) (λ _, inr (mkMdMeta None None None))
    id example_widgets
  = inr ("allja", 1%Z, None).
Proof.
  apply (proj2 (proj2 (X17_resolve_contest id (λ _, false) (λ _, None)
                         (λ _, inr (mkMdMeta None None None)) id example_widgets))).
  - apply list_elem_of_here.
  - reflexivity.
Defined.

Lemma X18_create_lg8_witness :
  ∃ name out,
    create_lg8 id (λ s, [s]) (λ _, false) (λ _, None)
      (λ _, inr (mkMdMeta None None None)) id cp932_ascii example_widgets "2026"
    = Some (inr (name, out))
    ∧ read_qso out = Some 0%Z
    ∧ ∃ mode band kind,
        struct_unpack_H 6 (slice out 2 (2 + 12))
        = inr [mode; 0; 0; band; kind; 0]%Z
        ∧ mode_label mode = "CW" ∧ band_label band = "7MHz".
Proof.
  destruct (create_lg8 id (λ s, [s]) (λ _, false) (λ _, None)
              (λ _, inr (mkMdMeta None None None)) id cp932_ascii example_widgets
              "2026") as [[e|[name out]]|] eqn:H;
    [vm_compute in H; discriminate| |vm_compute in H; discriminate].
  exists name, out. split; [reflexivity|].
  destruct (proj2 (X18_create_lg8 id (λ s, [s]) (λ _, false) (λ _, None)
                     (λ _, inr (mkMdMeta None None None)) id cp932_ascii
                     example_widgets "2026") name out H)
    as (key & kind & md & mode & band & _ & _ & Hm & Hb & Hq & Hs).
  split; [exact Hq|]. exists mode, band, kind. auto.
Defined.
